(** * Reversi Deluxe: validation helpers, board state machine and AI search

    A shallow embedding of [src/error_handling.py] and [src/config.py],
    together with the board and search engine that the test-suite drives
    ([src/tests/test_board.py], [src/tests/test_ai.py]). *)

From Stdlib Require Import ZArith Bool Lia.
From Stdlib Require Import Floats.SpecFloat.
From Stdlib Require Import QArith.QArith_base QArith.Qpower.
From stdpp Require Import base option list strings gmap.

Local Open Scope Z_scope.
Set Warnings "-register-all".

(** ** Python values

    The values a deserialized save file (or any caller) can hand to the
    helpers.  Integers are unbounded; [bool] is a subclass of [int];
    floats are IEEE-754 values in the representation of [SpecFloat]. *)

Inductive PyVal : Type :=
  | PNone
  | PBool (b : bool)
  | PInt (n : Z)
  | PFloat (f : spec_float)
  | PStr (s : string)
  | PList (l : list PyVal)
  | PDict (d : gmap string PyVal).

(** [isinstance(v, int)]: true for [int] and for its subclass [bool];
    the result carries the integer the value stands for. *)
Definition as_int (v : PyVal) : option Z :=
  match v with
  | PInt n => Some n
  | PBool b => Some (Z.b2z b)
  | _ => None
  end.

(** Exact comparison of a float with an integer, as Python performs it
    (no rounding of the integer).  [None] is the unordered case (NaN). *)
Definition float_cmp_int (f : spec_float) (n : Z) : option comparison :=
  match f with
  | S754_zero _ => Some (0 ?= n)
  | S754_infinity s => Some (if s then Lt else Gt)
  | S754_nan => None
  | S754_finite s m e =>
      let v := if s then Z.neg m else Z.pos m in
      if 0 <=? e then Some (v * 2 ^ e ?= n)
      else Some (v ?= n * 2 ^ (- e))
  end.

(** [v == n] for an integer literal [n]. Never raises: values of other
    types simply compare unequal. *)
Definition py_eq_int (v : PyVal) (n : Z) : bool :=
  match v with
  | PInt m => m =? n
  | PBool b => Z.b2z b =? n
  | PFloat f => match float_cmp_int f n with Some Eq => true | _ => false end
  | _ => false
  end.

(** [v in [n1, n2, ...]] for a list of integer literals. *)
Definition py_in_ints (v : PyVal) (ns : list Z) : bool :=
  existsb (py_eq_int v) ns.

(** ** Exceptions *)

Inductive ExcClass : Type :=
  | BaseException | SystemExit | KeyboardInterrupt | GeneratorExit
  | Exception
  | TypeError | AttributeError | ValueError | JSONDecodeError
  | OSError | FileNotFoundError | PermissionError
  | ReversiError | InvalidMoveError | InvalidBoardStateError
  | SaveFileError | ConfigurationError.

#[global] Instance ExcClass_eq_dec : EqDecision ExcClass.
Proof. solve_decision. Defined.

(** The direct base class; [BaseException] is the root. *)
Definition base_class (c : ExcClass) : option ExcClass :=
  match c with
  | BaseException => None
  | SystemExit | KeyboardInterrupt | GeneratorExit | Exception => Some BaseException
  | TypeError | AttributeError | ValueError | OSError | ReversiError => Some Exception
  | JSONDecodeError => Some ValueError
  | FileNotFoundError | PermissionError => Some OSError
  | InvalidMoveError | InvalidBoardStateError
  | SaveFileError | ConfigurationError => Some ReversiError
  end.

(** The class itself followed by its ancestors (the hierarchy is four
    levels deep). *)
Fixpoint mro_upto (fuel : nat) (c : ExcClass) : list ExcClass :=
  c :: match fuel with
       | O => []
       | S k => match base_class c with
                | Some p => mro_upto k p
                | None => []
                end
       end.

Definition mro : ExcClass → list ExcClass := mro_upto 4.

Definition issubclass (c d : ExcClass) : bool := bool_decide (d ∈ mro c).

Record Exc : Type := mkExc { exc_class : ExcClass; exc_text : string }.

Definition isinstance_exc (e : Exc) (c : ExcClass) : bool :=
  issubclass (exc_class e) c.

(** ** Computations: a state-and-exception monad

    A Python call either returns a value or raises, and may change the
    state it runs against on the way. *)

Inductive Outcome (A : Type) : Type :=
  | Return (a : A)
  | Raise (e : Exc).
Arguments Return {A} a.
Arguments Raise {A} e.

Definition StErr (S A : Type) : Type := S → Outcome A * S.

Definition ret {S A} (a : A) : StErr S A := λ s, (Return a, s).
Definition raise {S A} (e : Exc) : StErr S A := λ s, (Raise e, s).
Definition get {S} : StErr S S := λ s, (Return s, s).
Definition put {S} (s : S) : StErr S () := λ _, (Return (), s).
Definition bind {S A B} (c : StErr S A) (k : A → StErr S B) : StErr S B :=
  λ s, match c s with
       | (Return a, s') => k a s'
       | (Raise e, s') => (Raise e, s')
       end.

Notation "x <- c ;; k" := (bind c (λ x, k))
  (at level 100, c at next level, right associativity).
Notation "c ;; k" := (bind c (λ _, k))
  (at level 100, right associativity).

(** [try: body except C1 as e: h1 ... except Cn as e: hn]: the first
    clause whose class the exception is an instance of handles it; with
    no such clause the exception propagates. *)
Fixpoint dispatch {S A} (clauses : list (ExcClass * (Exc → StErr S A)))
    (e : Exc) : StErr S A :=
  match clauses with
  | [] => raise e
  | (c, h) :: rest => if isinstance_exc e c then h e else dispatch rest e
  end.

Definition try_except {S A} (body : StErr S A)
    (clauses : list (ExcClass * (Exc → StErr S A))) : StErr S A :=
  λ s, match body s with
       | (Return a, s') => (Return a, s')
       | (Raise e, s') => dispatch clauses e s'
       end.

(** ** Logging

    [logger = get_logger(__name__)]: the helpers only ever append
    records.  A record keeps the level and the interpolated fields of the
    message. *)

Inductive LogLevel : Type := DEBUG | INFO | WARNING | ERROR.

Inductive LogMsg : Type :=
  | MsgBoardSizeNotInt (size : PyVal)
  | MsgBoardSizeRange (size lo hi : Z)
  | MsgBoardSizeOdd (size : Z)
  | MsgMissingField (field : string)
  | MsgGridNotList
  | MsgGridHeight (height : nat) (size : PyVal)
  | MsgRowNotList (i : nat)
  | MsgRowLength (i len : nat) (size : PyVal)
  | MsgInvalidCell (i j : nat) (cell : PyVal)
  | MsgInvalidToMove (to_move : PyVal)
  | MsgAIDepthNotInt (depth : PyVal)
  | MsgAIDepthRange (depth lo hi : Z)
  | MsgFileError (error_message kind : string) (e : Exc)
  | MsgExecError (msg : string) (e : Exc).

Record LogRecord : Type := mkLog { log_level : LogLevel; log_msg : LogMsg }.

Definition Log : Type := list LogRecord.
Definition Py (A : Type) : Type := StErr Log A.

Definition emit (lvl : LogLevel) (m : LogMsg) : Py () :=
  λ log, (Return (), log ++ [mkLog lvl m]).
Definition logger_warning : LogMsg → Py () := emit WARNING.
Definition logger_error : LogMsg → Py () := emit ERROR.

(** ** [config.py] *)

Record GameConfig : Type := {
  DEFAULT_BOARD_SIZE : Z;
  MIN_BOARD_SIZE : Z;
  MAX_BOARD_SIZE : Z;
  VALID_BOARD_SIZES : list Z;
  DEFAULT_AI_DEPTH : Z;
  MIN_AI_DEPTH : Z;
  MAX_AI_DEPTH : Z;
  MAX_TRANSPOSITION_SIZE : Z;
  AI_DELAY_MS : Z;
  AI_VS_AI_DELAY_MS : Z;
  SAVE_FILE_VERSION : string
}.

Definition game_config : GameConfig := {|
  DEFAULT_BOARD_SIZE := 8;
  MIN_BOARD_SIZE := 4;
  MAX_BOARD_SIZE := 16;
  VALID_BOARD_SIZES := [4; 6; 8; 10; 12; 14; 16];
  DEFAULT_AI_DEPTH := 4;
  MIN_AI_DEPTH := 1;
  MAX_AI_DEPTH := 6;
  MAX_TRANSPOSITION_SIZE := 10000;
  AI_DELAY_MS := 1000;
  AI_VS_AI_DELAY_MS := 500;
  SAVE_FILE_VERSION := "2.0"
|}.

(** [DIRECTIONS]: the eight neighbour offsets, in the order of the
    source. *)
Definition DIRECTIONS : list (Z * Z) :=
  [(-1, -1); (-1, 0); (-1, 1); (0, -1); (0, 1); (1, -1); (1, 0); (1, 1)].

(** ** [error_handling.py]: validators *)

(** [validate_board_size(size)]. The [isinstance] test comes first, so
    the comparisons and [%] below it only ever see integers. *)
Definition validate_board_size (size : PyVal) : Py bool :=
  match as_int size with
  | None =>
      logger_warning (MsgBoardSizeNotInt size) ;; ret false
  | Some n =>
      if (n <? MIN_BOARD_SIZE game_config) || (n >? MAX_BOARD_SIZE game_config)
      then
        logger_warning
          (MsgBoardSizeRange n (MIN_BOARD_SIZE game_config)
             (MAX_BOARD_SIZE game_config)) ;;
        ret false
      else if negb (n `mod` 2 =? 0) then
        logger_warning (MsgBoardSizeOdd n) ;; ret false
      else ret true
  end.

(** [validate_ai_depth(depth)]. *)
Definition validate_ai_depth (depth : PyVal) : Py bool :=
  match as_int depth with
  | None =>
      logger_warning (MsgAIDepthNotInt depth) ;; ret false
  | Some n =>
      if (n <? MIN_AI_DEPTH game_config) || (n >? MAX_AI_DEPTH game_config)
      then
        logger_warning
          (MsgAIDepthRange n (MIN_AI_DEPTH game_config)
             (MAX_AI_DEPTH game_config)) ;;
        ret false
      else ret true
  end.

(** [validate_save_file(data)].  The two loops return at the first
    offending row or cell; [check_cells] and [check_rows] give the record
    that is logged there, or [None] when the loop runs to its end. *)
Definition required_fields : list string := ["grid"; "size"; "to_move"].

Fixpoint check_cells (i j : nat) (row : list PyVal) : option LogMsg :=
  match row with
  | [] => None
  | cell :: rest =>
      if negb (py_in_ints cell [0; 1; 2]) then Some (MsgInvalidCell i j cell)
      else check_cells i (S j) rest
  end.

Fixpoint check_rows (size : PyVal) (i : nat) (grid : list PyVal)
    : option LogMsg :=
  match grid with
  | [] => None
  | row :: rest =>
      match row with
      | PList cells =>
          if negb (py_eq_int size (Z.of_nat (length cells)))
          then Some (MsgRowLength i (length cells) size)
          else match check_cells i 0 cells with
               | Some m => Some m
               | None => check_rows size (S i) rest
               end
      | _ => Some (MsgRowNotList i)
      end
  end.

Definition validate_save_file (data : gmap string PyVal) : Py bool :=
  match List.find (λ field, negb (bool_decide (is_Some (data !! field))))
          required_fields with
  | Some field => logger_error (MsgMissingField field) ;; ret false
  | None =>
      let grid := default (PList []) (data !! "grid") in
      let size := default (PInt 0) (data !! "size") in
      match grid with
      | PList rows =>
          if negb (py_eq_int size (Z.of_nat (length rows))) then
            logger_error (MsgGridHeight (length rows) size) ;; ret false
          else
            match check_rows size 0 rows with
            | Some m => logger_error m ;; ret false
            | None =>
                let to_move := default PNone (data !! "to_move") in
                if negb (py_in_ints to_move [1; 2]) then
                  logger_error (MsgInvalidToMove to_move) ;; ret false
                else ret true
            end
      | _ => logger_error MsgGridNotList ;; ret false
      end
  end.

(** ** [error_handling.py]: wrappers *)

(** A callable: its [__name__] when it has one (functions and lambdas
    do, [functools.partial] objects and callable instances need not),
    and what calling it with the given arguments does. *)
Record Callable : Type := mkCallable {
  fn_name : option string;
  fn_call : list PyVal → Py PyVal
}.

(** [func.__name__]. *)
Definition getattr_name (func : Callable) : Py string :=
  match fn_name func with
  | Some n => ret n
  | None => raise (mkExc AttributeError "__name__")
  end.

(** [safe_execute(func, *args, default=None, error_msg="", **kwargs)]. *)
Definition safe_execute (func : Callable) (args : list PyVal)
    (default : PyVal) (error_msg : string) : Py PyVal :=
  try_except (fn_call func args)
    [(Exception, λ e,
        msg <- (if bool_decide (error_msg = "") then
                  name <- getattr_name func ;;
                  ret ("Error executing " +:+ name)
                else ret error_msg) ;;
        logger_error (MsgExecError msg e) ;;
        ret default)].

(** [handle_file_errors(default_return, error_message)(func)]: the
    wrapper the decorator returns.  [functools.wraps] copies [__name__]
    from [func] when [func] has one; otherwise the wrapper keeps the
    name it was defined with, [wrapper]. *)
Definition handle_file_errors (default_return : PyVal)
    (error_message : string) (func : Callable) : Callable :=
  let handler kind := λ e : Exc,
    logger_error (MsgFileError error_message kind e) ;;
    ret default_return in
  {| fn_name := Some (default "wrapper" (fn_name func));
     fn_call := λ args,
       try_except (fn_call func args)
         [(FileNotFoundError, handler "File not found");
          (PermissionError, handler "Permission denied");
          (JSONDecodeError, handler "Invalid JSON");
          (OSError, handler "OS error");
          (Exception, handler "Unexpected error")] |}.

(** ** The game core: [Board], [Move] and [AI]

    Modelled from the spec: the module the tests import as [src.Reversi],
    whose classes [Board], [Move] and [AI] are written out below from
    sections 3 and 4 of the design document.  The colour codes and
    [DIRECTIONS] are those of [config.py], the opening layout is the one
    [test_board.py] checks. *)

Module Reversi.

(** [Colors.EMPTY = 0], [Colors.BLACK = 1], [Colors.WHITE = 2]. *)
Inductive Color : Type := Black | White.
Inductive Cell : Type := Empty | Disc (c : Color).

Definition BLACK : Z := 1.
Definition WHITE : Z := 2.
Definition EMPTY : Z := 0.

Definition color_code (c : Color) : Z :=
  match c with Black => BLACK | White => WHITE end.
Definition cell_code (x : Cell) : Z :=
  match x with Empty => EMPTY | Disc c => color_code c end.

Definition opponent (c : Color) : Color :=
  match c with Black => White | White => Black end.

#[global] Instance Color_eq_dec : EqDecision Color.
Proof. solve_decision. Defined.
#[global] Instance Cell_eq_dec : EqDecision Cell.
Proof. solve_decision. Defined.

#[global] Program Instance Color_countable : Countable Color :=
  inj_countable' (λ c, match c with Black => false | White => true end)
                 (λ b : bool, if b then White else Black) _.
Next Obligation. by intros []. Qed.

#[global] Program Instance Cell_countable : Countable Cell :=
  inj_countable' (λ x, match x with Empty => None | Disc c => Some c end)
                 (λ o, match o with None => Empty | Some c => Disc c end) _.
Next Obligation. by intros []. Qed.

Definition Grid : Type := list (list Cell).
Definition Pos : Type := (Z * Z)%type.

(** Modelled from the spec: reading a cell of [Board.grid], [None]
    beyond the edge of the board. *)
Definition cell_at (g : Grid) (r c : Z) : option Cell :=
  if (0 <=? r) && (0 <=? c)
  then g !! Z.to_nat r ≫= λ cells, cells !! Z.to_nat c
  else None.

(** Modelled from the spec: writing a cell of [Board.grid]; coordinates
    off the board change nothing. *)
Definition set_cell (g : Grid) (r c : Z) (x : Cell) : Grid :=
  if (0 <=? r) && (0 <=? c)
  then alter (λ cells, <[Z.to_nat c := x]> cells) (Z.to_nat r) g
  else g.

(** Modelled from the spec: [Move], a candidate placement with the cells
    it would flip (section 3 of the design); the flip set is kept in the
    order the directions produce it. *)
Record Move : Type := mkMove {
  row : Z;
  col : Z;
  color : Color;
  flips : list Pos
}.

#[global] Instance Move_eq_dec : EqDecision Move.
Proof. solve_decision. Defined.

(** Modelled from the spec: the cells [Board.legal_moves] meets when it
    leaves [(r, c)] in direction [d], nearest first.  A board of side [n]
    is left after at most [n] steps. *)
Definition ray (n : nat) (r c : Z) (d : Pos) : list Pos :=
  (λ k, (r + k * d.1, c + k * d.2)) <$> seqZ 1 (Z.of_nat n).

(** Modelled from the spec: the direction walk of [legal_moves] (section
    4.1).  The run of opponent discs collected so far is contributed only
    when the walk ends on a disc of the mover's own colour; an empty cell
    or the edge contributes nothing. *)
Fixpoint walk (g : Grid) (mover : Color) (cells : list Pos)
    (run : list Pos) : list Pos :=
  match cells with
  | [] => []
  | p :: rest =>
      match cell_at g p.1 p.2 with
      | Some (Disc d) =>
          if decide (d = mover) then run
          else walk g mover rest (run ++ [p])
      | _ => []
      end
  end.

(** Modelled from the spec: the flip set of a placement in
    [Board.legal_moves], the runs of the eight directions joined. *)
Definition flips_from (g : Grid) (mover : Color) (r c : Z) : list Pos :=
  d ← DIRECTIONS; walk g mover (ray (length g) r c d) [].

(** Modelled from the spec: move generation over a grid, scanning rows
    and then columns (row-major), keeping the empty cells whose flip set
    is non-empty. *)
Definition grid_moves (g : Grid) (mover : Color) : list Move :=
  r ← seqZ 0 (Z.of_nat (length g));
  c ← seqZ 0 (Z.of_nat (length g));
  match cell_at g r c with
  | Some Empty =>
      match flips_from g mover r c with
      | [] => []
      | f => [mkMove r c mover f]
      end
  | _ => []
  end.

(** Modelled from the spec: the grid update of [Board.make_move],
    placing the disc and turning over every cell of the flip set. *)
Definition apply_move (g : Grid) (m : Move) : Grid :=
  foldl (λ acc p, set_cell acc p.1 p.2 (Disc (color m)))
        (set_cell g (row m) (col m) (Disc (color m))) (flips m).

(** Modelled from the spec: the scan of [Board.score], counting the
    cells that hold [x]. *)
Definition count_cells (x : Cell) (g : Grid) : nat :=
  length (filter (λ y, y = x) (concat g)).

(** Modelled from the spec: [Board] (section 3).  [history] and
    [redo_stack] are stacks, most recent snapshot first; [move_list] is a
    log, oldest entry first. *)
Record Board : Type := mkBoard {
  size : Z;
  grid : Grid;
  to_move : Color;
  history : list (Grid * Color);
  redo_stack : list (Grid * Color);
  move_list : list (Color * Z * Z)
}.

(** Modelled from the spec: the opening position of [Board.__init__],
    the four centre cells as
    [TestBoardInitialization.test_initial_pieces] reads them. *)
Definition initial_grid (n : Z) : Grid :=
  let center := n `div` 2 in
  let blank := replicate (Z.to_nat n) (replicate (Z.to_nat n) Empty) in
  set_cell
    (set_cell
       (set_cell
          (set_cell blank (center - 1) (center - 1) (Disc White))
          center center (Disc White))
       (center - 1) center (Disc Black))
    center (center - 1) (Disc Black).

(** Modelled from the spec: [Board.__init__]; [Board(size)] fails with
    [ConfigurationError] unless the size is even and within [4, 16];
    Black moves first. *)
Definition construct (n : Z) : Outcome Board :=
  if (4 <=? n) && (n <=? 16) && (n `mod` 2 =? 0) then
    Return {| size := n; grid := initial_grid n; to_move := Black;
              history := []; redo_stack := []; move_list := [] |}
  else Raise (mkExc ConfigurationError "board size").

(** Modelled from the spec: [Board.legal_moves(color)]. *)
Definition legal_moves (b : Board) (mover : Color) : list Move :=
  grid_moves (grid b) mover.

(** Modelled from the spec: [Board.make_move(move)].  The legality test
    comes before any assignment. *)
Definition make_move (m : Move) : StErr Board () :=
  b <- get ;;
  if negb (bool_decide (m ∈ legal_moves b (to_move b))) then
    raise (mkExc InvalidMoveError "illegal move")
  else
    put {| size := size b;
           grid := apply_move (grid b) m;
           to_move := opponent (to_move b);
           history := (grid b, to_move b) :: history b;
           redo_stack := [];
           move_list := move_list b ++ [(color m, row m, col m)] |}.

(** Modelled from the spec: [Board.pass_turn()]. *)
Definition pass_turn : StErr Board () :=
  b <- get ;;
  put {| size := size b;
         grid := grid b;
         to_move := opponent (to_move b);
         history := (grid b, to_move b) :: history b;
         redo_stack := [];
         move_list := move_list b ++ [(to_move b, -1, -1)] |}.

(** Modelled from the spec: [Board.undo()]. *)
Definition undo : StErr Board bool :=
  b <- get ;;
  match history b with
  | [] => ret false
  | (g, mover) :: older =>
      put {| size := size b;
             grid := g;
             to_move := mover;
             history := older;
             redo_stack := (grid b, to_move b) :: redo_stack b;
             move_list := move_list b |} ;;
      ret true
  end.

(** Modelled from the spec: [Board.redo()], the inverse of [undo]. *)
Definition redo : StErr Board bool :=
  b <- get ;;
  match redo_stack b with
  | [] => ret false
  | (g, mover) :: older =>
      put {| size := size b;
             grid := g;
             to_move := mover;
             history := (grid b, to_move b) :: history b;
             redo_stack := older;
             move_list := move_list b |} ;;
      ret true
  end.

(** Modelled from the spec: [Board.score()]. *)
Definition score (b : Board) : nat * nat :=
  (count_cells (Disc Black) (grid b), count_cells (Disc White) (grid b)).

(** Modelled from the spec: [Board.game_over()], true when the grid is
    full or neither colour has a legal move. *)
Definition grid_over (g : Grid) : bool :=
  bool_decide (count_cells Empty g = 0%nat)
  || (bool_decide (grid_moves g Black = [])
      && bool_decide (grid_moves g White = [])).

Definition game_over (b : Board) : bool := grid_over (grid b).

(** Modelled from the spec: the boards a game can produce, a constructed
    [Board] and whatever its mutating operations make of a reachable
    one. *)
Inductive reachable : Board → Prop :=
  | reach_construct n b :
      construct n = Return b → reachable b
  | reach_make_move m b b' :
      reachable b → make_move m b = (Return (), b') → reachable b'
  | reach_pass b b' :
      reachable b → pass_turn b = (Return (), b') → reachable b'
  | reach_undo b b' r :
      reachable b → undo b = (Return r, b') → reachable b'
  | reach_redo b b' r :
      reachable b → redo b = (Return r, b') → reachable b'.

(** Modelled from the spec: the invariant of [Board] that the grid is
    [size] by [size]. *)
Definition well_formed (b : Board) : Prop :=
  Z.of_nat (length (grid b)) = size b
  ∧ Forall (λ cells, Z.of_nat (length cells) = size b) (grid b).

(** Modelled from the spec: a transposition entry, the score found for a
    position together with the depth it was searched to (section 3). *)
Record Entry : Type := mkEntry { entry_score : Z; entry_depth : nat }.

(** Modelled from the spec: [AI] (section 3).  The table is keyed by the
    structural fingerprint (grid contents, side to move). *)
Record AI : Type := mkAI {
  max_depth : nat;
  transposition_table : gmap (Grid * Color) Entry;
  nodes_searched : nat;
  rng : N
}.

(** Modelled from the spec: the choices the design leaves to the
    implementation, handed to the engine as an explicit context (section
    9): the evaluator of section 4.2, the transposition cap, the
    empty-cell threshold of adaptive depth, and the draw
    [rng.randrange(n)] of the seeded source. *)
Record Policy : Type := mkPolicy {
  evaluate : Grid → Color → Z;
  table_cap : nat;
  endgame_empties : nat;
  randrange : N → nat → nat * N
}.

(** Modelled from the spec: the node counter of [AI], incremented once
    per node visited. *)
Definition tick (ai : AI) : AI :=
  {| max_depth := max_depth ai;
     transposition_table := transposition_table ai;
     nodes_searched := S (nodes_searched ai);
     rng := rng ai |}.

(** Modelled from the spec: the cache of [AI].  A cached score is reused
    when it was searched at least as deep as the budget now asked for. *)
Definition probe (ai : AI) (key : Grid * Color) (d : nat) : option Z :=
  match transposition_table ai !! key with
  | Some e => if (d <=? entry_depth e)%nat then Some (entry_score e) else None
  | None => None
  end.

(** Modelled from the spec: the cache of [AI], recording the score of a
    position with the depth it was searched to. *)
Definition store (ai : AI) (key : Grid * Color) (v : Z) (d : nat) : AI :=
  {| max_depth := max_depth ai;
     transposition_table := <[key := mkEntry v d]> (transposition_table ai);
     nodes_searched := nodes_searched ai;
     rng := rng ai |}.

(** Modelled from the spec: the move ordering of [AI], moves leading to
    a cached position first, then corner moves, then the rest; each group
    keeps the scan order. *)
Definition is_corner (g : Grid) (m : Move) : bool :=
  let last := Z.of_nat (length g) - 1 in
  ((row m =? 0) || (row m =? last)) && ((col m =? 0) || (col m =? last)).

Definition cached (ai : AI) (g : Grid) (m : Move) : bool :=
  bool_decide
    (is_Some (transposition_table ai !! (apply_move g m, opponent (color m)))).

Definition order_moves (ai : AI) (g : Grid) (moves : list Move) : list Move :=
  let fresh := List.filter (λ m, negb (cached ai g m)) moves in
  List.filter (cached ai g) moves
  ++ List.filter (is_corner g) fresh
  ++ List.filter (λ m, negb (is_corner g m)) fresh.

(** Modelled from the spec: the alpha-beta window of [AI]; [None] stands
    for the infinite bound. *)
Definition cutoff (alpha beta : option Z) : bool :=
  match alpha, beta with
  | Some a, Some b => b <=? a
  | _, _ => false
  end.

Definition tighten (pick : Z → Z → Z) (bound : option Z) (v : Z) : option Z :=
  Some (match bound with None => v | Some x => pick x v end).

(** Modelled from the spec: the loop of [AI] over the children of a
    node.  Each child is searched with the current window, the window is
    narrowed, and the loop breaks as soon as the window closes. *)
Fixpoint alphabeta_loop
    (rec : Grid → Color → option Z → option Z → AI → Z * AI)
    (g : Grid) (maximizing : bool) (moves : list Move)
    (alpha beta best : option Z) (ai : AI) : option Z * AI :=
  match moves with
  | [] => (best, ai)
  | m :: rest =>
      let '(v, ai1) := rec (apply_move g m) (opponent (color m)) alpha beta ai in
      if maximizing then
        let best' := tighten Z.max best v in
        let alpha' := tighten Z.max alpha v in
        if cutoff alpha' beta then (best', ai1)
        else alphabeta_loop rec g maximizing rest alpha' beta best' ai1
      else
        let best' := tighten Z.min best v in
        let beta' := tighten Z.min beta v in
        if cutoff alpha beta' then (best', ai1)
        else alphabeta_loop rec g maximizing rest alpha beta' best' ai1
  end.

(** Modelled from the spec: one interior node of the search of [AI],
    with budget [d] for side [c]: counted, scored as a
    leaf when the game is over, answered from the table when possible,
    otherwise expanded ([rec] searches a child with budget [d - 1]) and
    stored.  With no move for [c] the node hands over to [on_pass]. *)
Definition visit (P : Policy)
    (rec : Grid → Color → option Z → option Z → AI → Z * AI)
    (d : nat) (me : Color)
    (on_pass : option Z → option Z → AI → Z * AI)
    (g : Grid) (c : Color) (alpha beta : option Z) (ai : AI) : Z * AI :=
  let ai := tick ai in
  if grid_over g then (evaluate P g me, ai)
  else
    match probe ai (g, c) d with
    | Some v => (v, ai)
    | None =>
        let '(v, ai') :=
          match grid_moves g c with
          | [] => on_pass alpha beta ai
          | moves =>
              let '(best, ai') :=
                alphabeta_loop rec g (bool_decide (c = me))
                  (order_moves ai g moves) alpha beta None ai in
              (default (evaluate P g me) best, ai')
          end in
        (v, store ai' (g, c) v d)
    end.

(** Modelled from the spec: the search of [AI], depth-limited minimax
    with alpha-beta pruning, scored from [me]'s side (section 4.3).  A side without a
    move passes to the opponent with the same budget; two passes in a row
    are a leaf. *)
Fixpoint search (P : Policy) (d : nat) (me : Color) (g : Grid) (c : Color)
    (alpha beta : option Z) (ai : AI) : Z * AI :=
  match d with
  | O => (evaluate P g me, tick ai)
  | S d' =>
      visit P (search P d' me) d me
        (visit P (search P d' me) d me
           (λ _ _ ai', (evaluate P g me, ai')) g (opponent c))
        g c alpha beta ai
  end.

(** Modelled from the spec: the adaptive depth of [AI]; at or below the
    threshold of empty cells the search runs to the end of the game. *)
Definition adaptive_depth (P : Policy) (depth empties : nat) : nat :=
  if (empties <=? endgame_empties P)%nat then depth `max` empties else depth.

(** Modelled from the spec: the root of [AI.choose], the moves with
    their search scores, each searched with the full window so that equal
    scores can be compared. *)
Fixpoint score_moves (P : Policy) (d : nat) (me : Color) (g : Grid)
    (moves : list Move) (ai : AI) : list (Move * Z) * AI :=
  match moves with
  | [] => ([], ai)
  | m :: rest =>
      let '(v, ai1) :=
        search P d me (apply_move g m) (opponent me) None None ai in
      let '(scored, ai2) := score_moves P d me g rest ai1 in
      ((m, v) :: scored, ai2)
  end.

(** Modelled from the spec: the tie-break of [AI.choose], the best score
    and the moves that reach it. *)
Definition best_score (scored : list (Move * Z)) : option Z :=
  foldr (λ mv acc, tighten Z.max acc mv.2) None scored.

Definition is_best (best : option Z) (mv : Move * Z) : bool :=
  bool_decide (best = Some mv.2).

(** Modelled from the spec: [AI.choose(board, color)] (section 4.3).
    The counter is reset and an over-full table is cleared before
    anything else; with no legal move the answer is [None]; otherwise
    the root moves are searched and one of the best is drawn. *)
Definition choose (P : Policy) (b : Board) (c : Color)
    : StErr AI (option Move) :=
  ai <- get ;;
  put {| max_depth := max_depth ai;
         transposition_table :=
           if (table_cap P <? base.size (transposition_table ai))%nat
           then ∅ else transposition_table ai;
         nodes_searched := 0;
         rng := rng ai |} ;;
  match legal_moves b c with
  | [] => ret None
  | moves =>
      ai <- get ;;
      let depth :=
        adaptive_depth P (max_depth ai) (count_cells Empty (grid b)) in
      let '(scored, ai1) :=
        score_moves P (pred depth) c (grid b)
          (order_moves ai (grid b) moves) (tick ai) in
      let candidates := List.filter (is_best (best_score scored)) scored in
      let '(i, seed) := randrange P (rng ai1) (length candidates) in
      put {| max_depth := max_depth ai1;
             transposition_table := transposition_table ai1;
             nodes_searched := nodes_searched ai1;
             rng := seed |} ;;
      ret (fst <$> candidates !! (i `mod` length candidates)%nat)
  end.

(** Modelled from the spec: [AI.evaluate], one evaluator of the shape
    section 4.2 asks for, with documented weights: disc differential, 25 per corner held,
    5 per legal move of advantage. *)
Definition corners (g : Grid) : list Pos :=
  let last := Z.of_nat (length g) - 1 in
  [(0, 0); (0, last); (last, 0); (last, last)].

Definition corners_held (g : Grid) (c : Color) : Z :=
  Z.of_nat (length (List.filter
    (λ p : Pos, bool_decide (cell_at g p.1 p.2 = Some (Disc c))) (corners g))).

Definition evaluate_default (g : Grid) (me : Color) : Z :=
  let discs c := Z.of_nat (count_cells (Disc c) g) in
  let mobility c := Z.of_nat (length (grid_moves g c)) in
  (discs me - discs (opponent me))
  + 25 * (corners_held g me - corners_held g (opponent me))
  + 5 * (mobility me - mobility (opponent me)).

(** Modelled from the spec: the seeded random source of [AI], here a
    linear congruential generator. *)
Definition lcg_randrange (seed : N) (n : nat) : nat * N :=
  (N.to_nat (seed `mod` N.of_nat n)%N,
   ((seed * 1103515245 + 12345) `mod` 2147483648)%N).

(** Modelled from the spec: the context of an [AI] whose transposition
    cap is configured to [cap]. *)
Definition policy_with_cap (cap : nat) : Policy :=
  {| evaluate := evaluate_default;
     table_cap := cap;
     endgame_empties := 8;
     randrange := lcg_randrange |}.

(** Modelled from the spec: the default context of [AI];
    [MAX_TRANSPOSITION_SIZE] is the cap unless configured otherwise. *)
Definition default_policy : Policy :=
  policy_with_cap (Z.to_nat (MAX_TRANSPOSITION_SIZE game_config)).

(** Modelled from the spec: [AI(max_depth)], with an empty table and the
    counter at zero. *)
Definition new_AI (depth : nat) (seed : N) : AI :=
  {| max_depth := depth; transposition_table := ∅;
     nodes_searched := 0; rng := seed |}.

End Reversi.

(** ** The save-file format, in the words of the design

    [v] is the number [n]: Python's [v == n], under which [True] and
    [1.0] are the number 1. *)
Definition is_number (v : PyVal) (n : Z) : Prop := py_eq_int v n = true.

Definition cell_ok (cell : PyVal) : Prop :=
  is_number cell 0 ∨ is_number cell 1 ∨ is_number cell 2.

Definition row_ok (size : PyVal) (row : PyVal) : Prop :=
  ∃ cells, row = PList cells
           ∧ is_number size (Z.of_nat (length cells))
           ∧ Forall cell_ok cells.

(** The three keys are present, [grid] is a list of exactly [size] rows,
    each a list of exactly [size] cells, each cell in {0, 1, 2}, and
    [to_move] is 1 or 2. *)
Definition save_file_ok (data : gmap string PyVal) : Prop :=
  ∃ rows size to_move,
    data !! "grid" = Some (PList rows)
    ∧ data !! "size" = Some size
    ∧ data !! "to_move" = Some to_move
    ∧ is_number size (Z.of_nat (length rows))
    ∧ Forall (row_ok size) rows
    ∧ (is_number to_move 1 ∨ is_number to_move 2).

(** ** Numbers, as the values themselves carry them

    The number a value stands for, read off the value and not off any
    comparison: an [int] stands for itself, [True] for 1 and [False]
    for 0, and a float for the rational [(-1)^s * m * 2^e] it encodes
    (zero for both zeros).  [None], strings, lists, dictionaries,
    infinities and NaN stand for no number. *)
Definition float_value (f : spec_float) : option Q :=
  match f with
  | S754_zero _ => Some (inject_Z 0)
  | S754_finite s m e =>
      Some (Qmult (inject_Z (if s then Z.neg m else Z.pos m))
                  (Qpower (inject_Z 2) e))
  | S754_infinity _ | S754_nan => None
  end.

Inductive denotes : PyVal → Z → Prop :=
  | denotes_int (n : Z) : denotes (PInt n) n
  | denotes_bool (b : bool) : denotes (PBool b) (if b then 1 else 0)
  | denotes_float (f : spec_float) (q : Q) (n : Z) :
      float_value f = Some q → Qeq q (inject_Z n) → denotes (PFloat f) n.

(** A cell holds 0, 1 or 2. *)
Definition cell_value (cell : PyVal) : Prop :=
  denotes cell 0 ∨ denotes cell 1 ∨ denotes cell 2.

(** A row is a list of exactly [size] cells, each holding 0, 1 or 2. *)
Definition square_row (size : PyVal) (row : PyVal) : Prop :=
  ∃ cells, row = PList cells
           ∧ denotes size (Z.of_nat (length cells))
           ∧ Forall cell_value cells.

(** The three keys are present, [grid] is a list of exactly [size] rows,
    each a list of exactly [size] cells, each cell holds 0, 1 or 2, and
    [to_move] holds 1 or 2. *)
Definition save_file_valid (data : gmap string PyVal) : Prop :=
  ∃ rows size to_move,
    data !! "grid" = Some (PList rows)
    ∧ data !! "size" = Some size
    ∧ data !! "to_move" = Some to_move
    ∧ denotes size (Z.of_nat (length rows))
    ∧ Forall (square_row size) rows
    ∧ (denotes to_move 1 ∨ denotes to_move 2).

(** The floats 2.0 and 0.5, and a 2 by 2 file that spells its numbers
    as [True], [2.0], [-0.0] and [1]. *)
Definition two : spec_float := S754_finite false 4503599627370496 (-51).
Definition half : spec_float := S754_finite false 4503599627370496 (-53).

Definition save_mixed : gmap string PyVal :=
  {[ "grid" := PList [PList [PBool true; PFloat two];
                      PList [PFloat (S754_zero true); PInt 1]];
     "size" := PFloat two;
     "to_move" := PBool true ]}.

(** A size the board supports: an even integer within [4, 16]. *)
Definition supported_size (n : Z) : Prop :=
  4 ≤ n ≤ 16 ∧ Z.even n = true.

(** A save file over integers: [size], an integer grid and [to_move]. *)
Definition int_grid (rows : list (list Z)) : PyVal :=
  PList ((λ r, PList (PInt <$> r)) <$> rows).

Definition int_save (size : Z) (rows : list (list Z)) (to_move : Z)
    : gmap string PyVal :=
  {[ "grid" := int_grid rows; "size" := PInt size; "to_move" := PInt to_move ]}.

(** Two files with sizes no board supports: a 3 by 3 grid, and an empty
    grid of size 0. *)
Definition save_3x3 : gmap string PyVal :=
  int_save 3 [[0; 1; 2]; [2; 1; 0]; [0; 0; 0]] 1.
Definition save_empty : gmap string PyVal := int_save 0 [] 1.

(** A function that leaves through [sys.exit(0)], and one that fails
    with an [OSError]. *)
Definition exits : Callable :=
  {| fn_name := Some "exits";
     fn_call := λ _, raise (mkExc SystemExit "0") |}.
Definition fails : Callable :=
  {| fn_name := Some "fails";
     fn_call := λ _, raise (mkExc OSError "disk") |}.

(** The board [Board(size=8)] builds, and two moves offered to it: the
    first opening move of Black, and a disc on the corner. *)
Definition opening : Reversi.Board :=
  {| Reversi.size := 8;
     Reversi.grid := Reversi.initial_grid 8;
     Reversi.to_move := Reversi.Black;
     Reversi.history := [];
     Reversi.redo_stack := [];
     Reversi.move_list := [] |}.

Definition first_move : Reversi.Move :=
  Reversi.mkMove 2 3 Reversi.Black [(3, 3)].
Definition corner_move : Reversi.Move :=
  Reversi.mkMove 0 0 Reversi.Black [].

(** Entries under [n] distinct keys that no search produces, each
    [(1, 0)], as [test_transposition_table_cleared] inserts them. *)
Definition dummy_key (i : nat) : Reversi.Grid * Reversi.Color :=
  ([replicate (S i) Reversi.Empty], Reversi.Black).

Definition dummy_table (n : nat)
    : gmap (Reversi.Grid * Reversi.Color) Reversi.Entry :=
  list_to_map ((λ i, (dummy_key i, Reversi.mkEntry 1 0)) <$> seq 0 n).

Definition stuffed_AI (depth : nat) (seed : N) (n : nat) : Reversi.AI :=
  {| Reversi.max_depth := depth;
     Reversi.transposition_table := dummy_table n;
     Reversi.nodes_searched := 0;
     Reversi.rng := seed |}.

(** The table grows by at most one entry per node counted: from [ai] to
    [ai'] the counter does not go down, and the table gains no more
    entries than the counter gains nodes. *)
Definition paid_for (ai ai' : Reversi.AI) : Prop :=
  (Reversi.nodes_searched ai ≤ Reversi.nodes_searched ai')%nat
  ∧ (base.size (Reversi.transposition_table ai')
     + Reversi.nodes_searched ai
     ≤ base.size (Reversi.transposition_table ai)
       + Reversi.nodes_searched ai')%nat.

(** The engine with its table emptied. *)
Definition cleared (ai : Reversi.AI) : Reversi.AI :=
  {| Reversi.max_depth := Reversi.max_depth ai;
     Reversi.transposition_table := ∅;
     Reversi.nodes_searched := Reversi.nodes_searched ai;
     Reversi.rng := Reversi.rng ai |}.

(** A search procedure all of whose runs are paid for. *)
Definition pays
    (rec : Reversi.Grid → Reversi.Color → option Z → option Z →
           Reversi.AI → Z * Reversi.AI) : Prop :=
  ∀ g c alpha beta ai, paid_for ai (rec g c alpha beta ai).2.

(** ** [config.py]: files, logging and themes *)

Record FileConfig : Type := {
  SETTINGS_FILE : string;
  ICON_PNG : string;
  LOG_FILE : string;
  SAVE_GAME_EXTENSION : string
}.

Definition file_config : FileConfig := {|
  SETTINGS_FILE := "reversi-settings.json";
  ICON_PNG := "reversi-icon.png";
  LOG_FILE := "reversi.log";
  SAVE_GAME_EXTENSION := ".rsv"
|}.

Record LogConfig : Type := {
  LOG_LEVEL_CONSOLE : string;
  LOG_LEVEL_FILE : string;
  LOG_FORMAT : string;
  LOG_DATE_FORMAT : string;
  MAX_LOG_SIZE_MB : Z;
  LOG_BACKUP_COUNT : Z
}.

Definition log_config : LogConfig := {|
  LOG_LEVEL_CONSOLE := "INFO";
  LOG_LEVEL_FILE := "DEBUG";
  LOG_FORMAT := "%(asctime)s - %(name)s - %(levelname)s - %(message)s";
  LOG_DATE_FORMAT := "%Y-%m-%d %H:%M:%S";
  MAX_LOG_SIZE_MB := 10;
  LOG_BACKUP_COUNT := 3
|}.

(** One entry of [THEMES]: its ["name"], ["display"] and six colours. *)
Record Theme : Type := mkTheme {
  theme_name : string;
  theme_display : string;
  theme_felt : Z * Z * Z;
  theme_grid : Z * Z * Z;
  theme_hud : Z * Z * Z;
  theme_text : Z * Z * Z;
  theme_accent : Z * Z * Z;
  theme_danger : Z * Z * Z
}.

(** [THEMES], in the order the dictionary is written. *)
Definition THEMES : list (string * Theme) := [
  ("classic", mkTheme "classic" "Classic Green" (32, 108, 62) (10, 70, 38)
     (252, 252, 254) (40, 40, 45) (70, 130, 235) (235, 70, 70));
  ("ocean", mkTheme "ocean" "Ocean Blue" (25, 78, 132) (15, 50, 85)
     (240, 248, 255) (30, 50, 80) (50, 150, 255) (255, 100, 100));
  ("sunset", mkTheme "sunset" "Sunset Orange" (156, 78, 25) (120, 50, 15)
     (255, 248, 240) (80, 40, 20) (255, 120, 50) (220, 70, 70));
  ("midnight", mkTheme "midnight" "Midnight Dark" (25, 35, 50) (15, 25, 40)
     (35, 35, 40) (220, 220, 230) (120, 180, 255) (255, 120, 120));
  ("forest", mkTheme "forest" "Forest Green" (45, 85, 35) (25, 55, 20)
     (248, 252, 248) (30, 60, 25) (80, 160, 70) (200, 80, 80))
].

(** ** [logger.py]

    The state the module works on: the two class attributes of
    [GameLogger], the root logger of [logging] with its level and
    handlers, the records handed to loggers, the warnings printed to
    [sys.stderr], the number of readings of [time.time()] taken so far,
    and, for every path, whether a log file can be opened there ([None])
    or the exception the attempt ends in. *)

Module Logger.

(** A logger of [logging], known by its name. *)
Record PyLogger : Type := getLogger { logger_name : string }.

Inductive Handler : Type :=
  | StreamHandler (level : Z) (fmt datefmt : string)
  | RotatingFileHandler (filename : string) (maxBytes backupCount : Z)
      (encoding : string) (level : Z) (fmt datefmt : string).

(** The messages, with their interpolated fields. *)
Inductive Text : Type :=
  | TxtLiteral (s : string)
  | TxtLevels (console_level : Z) (file_level : string)
  | TxtStarting (operation : string)
  | TxtFailed (operation : string) (e : Exc)
  | TxtCompleted (operation : string)
  | TxtException (message : string) (e : Exc)
  | TxtCompletedIn (name : string) (start_time end_time : nat)
  | TxtFailedAfter (name : string) (start_time end_time : nat) (e : Exc)
  | TxtUnknownTheme (theme : PyVal) (available : list string).

Record Line : Type := mkLine {
  line_logger : string;
  line_level : LogLevel;
  line_text : Text;
  line_exc_info : bool
}.

Record Logging : Type := mkLogging {
  initialized : bool;
  loggers : gmap string PyLogger;
  root_level : Z;
  root_handlers : list Handler;
  journal : list Line;
  stderr : list Exc;
  clock : nat;
  disk : string → option Exc
}.

(** The level constants of [logging]. *)
Definition logging_levels : list (string * Z) :=
  [("CRITICAL", 50); ("FATAL", 50); ("ERROR", 40); ("WARNING", 30);
   ("WARN", 30); ("INFO", 20); ("DEBUG", 10); ("NOTSET", 0)].

Definition logging_DEBUG : Z := 10.
Definition logging_INFO : Z := 20.

(** [getattr(logging, name)] for the name of a level. *)
Definition getattr_logging (name : string) : StErr Logging Z :=
  match (list_to_map logging_levels : gmap string Z) !! name with
  | Some level => ret level
  | None => raise (mkExc AttributeError name)
  end.

(** [logger.debug/info/error(text)]. *)
Definition log_to (logger : PyLogger) (lvl : LogLevel) (text : Text)
    (exc_info : bool) : StErr Logging () :=
  λ w, (Return (),
        mkLogging (initialized w) (loggers w) (root_level w)
          (root_handlers w)
          (journal w ++ [mkLine (logger_name logger) lvl text exc_info])
          (stderr w) (clock w) (disk w)).

(** [print(f"Warning: Could not create log file: {e}", file=sys.stderr)]. *)
Definition print_stderr (e : Exc) : StErr Logging () :=
  λ w, (Return (),
        mkLogging (initialized w) (loggers w) (root_level w)
          (root_handlers w) (journal w) (stderr w ++ [e]) (clock w) (disk w)).

(** [logging.getLogger().setLevel(level)] and [.addHandler(h)]. *)
Definition root_setLevel (level : Z) : StErr Logging () :=
  λ w, (Return (),
        mkLogging (initialized w) (loggers w) level (root_handlers w)
          (journal w) (stderr w) (clock w) (disk w)).

Definition root_addHandler (h : Handler) : StErr Logging () :=
  λ w, (Return (),
        mkLogging (initialized w) (loggers w) (root_level w)
          (root_handlers w ++ [h]) (journal w) (stderr w) (clock w) (disk w)).

Definition set_initialized (b : bool) : StErr Logging () :=
  λ w, (Return (),
        mkLogging b (loggers w) (root_level w) (root_handlers w)
          (journal w) (stderr w) (clock w) (disk w)).

Definition register (name : string) (logger : PyLogger) : StErr Logging () :=
  λ w, (Return (),
        mkLogging (initialized w) (<[name := logger]> (loggers w))
          (root_level w) (root_handlers w) (journal w) (stderr w) (clock w)
          (disk w)).

(** [time.time()]: the next reading of the clock. *)
Definition time_time : StErr Logging nat :=
  λ w, (Return (clock w),
        mkLogging (initialized w) (loggers w) (root_level w)
          (root_handlers w) (journal w) (stderr w) (S (clock w)) (disk w)).

(** [logging.handlers.RotatingFileHandler(log_file, ...)] opens the file. *)
Definition open_log_file (log_file : string) : StErr Logging () :=
  w <- get ;;
  match disk w log_file with
  | Some e => raise e
  | None => ret ()
  end.

Fixpoint str_repeat (s : string) (n : nat) : string :=
  match n with
  | O => ""
  | S k => s +:+ str_repeat s k
  end.

(** [GameLogger.setup_logging(debug, log_file)], with the call to
    [cls.get_logger] at its end handed in. *)
Definition setup_logging_with (get_logger : string → StErr Logging PyLogger)
    (debug : bool) (log_file : option string) : StErr Logging () :=
  w <- get ;;
  if initialized w then ret ()
  else
    let log_file := default (LOG_FILE file_config) log_file in
    let fmt := LOG_FORMAT log_config in
    let datefmt := LOG_DATE_FORMAT log_config in
    console_level <-
      (if debug then ret logging_DEBUG
       else getattr_logging (LOG_LEVEL_CONSOLE log_config)) ;;
    let console_handler := StreamHandler console_level fmt datefmt in
    let no_file := λ e : Exc, (print_stderr e ;; ret (@None Handler)) in
    file_handler <-
      try_except
        (open_log_file log_file ;;
         level <- getattr_logging (LOG_LEVEL_FILE log_config) ;;
         ret (Some (RotatingFileHandler log_file
                      (MAX_LOG_SIZE_MB log_config * 1024 * 1024)
                      (LOG_BACKUP_COUNT log_config) "utf-8" level fmt datefmt)))
        [(OSError, no_file); (PermissionError, no_file)] ;;
    root_setLevel logging_DEBUG ;;
    root_addHandler console_handler ;;
    match file_handler with
    | Some h => root_addHandler h
    | None => ret ()
    end ;;
    set_initialized true ;;
    logger <- get_logger "GameLogger" ;;
    log_to logger INFO (TxtLiteral (str_repeat "=" 60)) false ;;
    log_to logger INFO
      (TxtLiteral "Reversi Deluxe - Logging system initialized") false ;;
    log_to logger INFO
      (TxtLevels console_level (LOG_LEVEL_FILE log_config)) false ;;
    log_to logger INFO (TxtLiteral (str_repeat "=" 60)) false.

(** The end of [GameLogger.get_logger(name)]: the logger is created on
    first use and kept in [_loggers]. *)
Definition lookup_logger (name : string) : StErr Logging PyLogger :=
  w <- get ;;
  match loggers w !! name with
  | Some logger => ret logger
  | None => register name (getLogger name) ;; ret (getLogger name)
  end.

(** [GameLogger.get_logger(name)] and [GameLogger.setup_logging] call
    each other; [depth] bounds the nesting of these calls. *)
Fixpoint get_logger_upto (depth : nat) (name : string)
    : StErr Logging PyLogger :=
  match depth with
  | O => raise (mkExc Exception "maximum recursion depth exceeded")
  | S k =>
      w <- get ;;
      (if negb (initialized w)
       then setup_logging_with (get_logger_upto k) false None
       else ret ()) ;;
      lookup_logger name
  end.

Definition setup_logging_upto (depth : nat)
    : bool → option string → StErr Logging () :=
  setup_logging_with (get_logger_upto depth).

(** Two nested calls are all the code ever makes (see
    [get_logger_depth]). *)
Definition get_logger : string → StErr Logging PyLogger := get_logger_upto 2.
Definition setup_logging : bool → option string → StErr Logging () :=
  setup_logging_upto 1.

(** The [with] statement: [__exit__] sees the exception of the body,
    whatever its class, and a true answer suppresses it; the value is
    [None] then. *)
Definition with_statement {S C A} (manager : StErr S C)
    (enter : C → StErr S C) (exit : C → option Exc → StErr S bool)
    (body : StErr S A) : StErr S (option A) :=
  mgr <- manager ;;
  _ <- enter mgr ;;
  λ s, match body s with
       | (Return a, s') => (_ <- exit mgr None ;; ret (Some a)) s'
       | (Raise e, s') =>
           (suppress <- exit mgr (Some e) ;;
            if suppress then ret None else raise e) s'
       end.

(** [log_exceptions(logger, message)]. *)
Record log_exceptions : Type := mk_log_exceptions {
  le_logger : PyLogger;
  le_message : string
}.

Definition log_exceptions_enter (self : log_exceptions)
    : StErr Logging log_exceptions := ret self.

Definition log_exceptions_exit (self : log_exceptions) (exc : option Exc)
    : StErr Logging bool :=
  match exc with
  | Some e =>
      log_to (le_logger self) ERROR (TxtException (le_message self) e) true ;;
      ret false
  | None => ret false
  end.

(** A function object: [__name__] and [__module__] when it has them. *)
Record Function : Type := mkFunction {
  func_name : option string;
  func_module : option string;
  func_call : list PyVal → StErr Logging PyVal
}.

Definition getattr_or_raise (attr : string) (o : option string)
    : StErr Logging string :=
  match o with
  | Some v => ret v
  | None => raise (mkExc AttributeError attr)
  end.

(** [log_performance(func)]: the wrapper the decorator returns.
    [functools.wraps] copies [__name__] and [__module__] from [func]
    when [func] has them; otherwise the wrapper keeps its own, the name
    [wrapper] and the module it is defined in, [logger]. *)
Definition log_performance (func : Function) : Function :=
  {| func_name := Some (default "wrapper" (func_name func));
     func_module := Some (default "logger" (func_module func));
     func_call := λ args,
       module <- getattr_or_raise "__module__" (func_module func) ;;
       logger <- get_logger module ;;
       start_time <- time_time ;;
       try_except
         (result <- func_call func args ;;
          end_time <- time_time ;;
          name <- getattr_or_raise "__name__" (func_name func) ;;
          log_to logger DEBUG (TxtCompletedIn name start_time end_time) false ;;
          ret result)
         [(Exception, λ e,
             end_time <- time_time ;;
             name <- getattr_or_raise "__name__" (func_name func) ;;
             log_to logger ERROR
               (TxtFailedAfter name start_time end_time e) false ;;
             raise e)] |}.

End Logger.

(** ** [error_handling.py]: [validate_theme] and [ErrorContext] *)

(** [hash(v)] fails on lists and dictionaries. *)
Definition hashable (v : PyVal) : bool :=
  match v with
  | PList _ | PDict _ => false
  | _ => true
  end.

(** [validate_theme(theme)]; [logger] is the module's logger.  The
    test [theme not in THEMES] hashes [theme] first. *)
Definition validate_theme (logger : Logger.PyLogger) (theme : PyVal)
    : StErr Logger.Logging bool :=
  known <-
    (if hashable theme then
       ret (match theme with
            | PStr s => bool_decide (s ∈ THEMES.*1)
            | _ => false
            end)
     else raise (mkExc TypeError "unhashable type")) ;;
  if negb known then
    Logger.log_to logger WARNING (Logger.TxtUnknownTheme theme (THEMES.*1))
      false ;;
    ret false
  else ret true.

(** [ErrorContext(operation, reraise)]. *)
Record ErrorContext : Type := mkErrorContext {
  operation : string;
  reraise : bool;
  ec_logger : Logger.PyLogger
}.

Definition ErrorContext_init (operation : string) (reraise : bool)
    : StErr Logger.Logging ErrorContext :=
  logger <- Logger.get_logger "ErrorContext" ;;
  ret (mkErrorContext operation reraise logger).

Definition ErrorContext_enter (self : ErrorContext)
    : StErr Logger.Logging ErrorContext :=
  Logger.log_to (ec_logger self) DEBUG
    (Logger.TxtStarting (operation self)) false ;;
  ret self.

Definition ErrorContext_exit (self : ErrorContext) (exc : option Exc)
    : StErr Logger.Logging bool :=
  match exc with
  | Some e =>
      Logger.log_to (ec_logger self) ERROR
        (Logger.TxtFailed (operation self) e) true ;;
      ret (negb (reraise self))
  | None =>
      Logger.log_to (ec_logger self) DEBUG
        (Logger.TxtCompleted (operation self)) false ;;
      ret false
  end.

(** [with ErrorContext(operation, reraise): body]. *)
Definition with_ErrorContext {A} (operation : string) (reraise : bool)
    (body : StErr Logger.Logging A) : StErr Logger.Logging (option A) :=
  Logger.with_statement (ErrorContext_init operation reraise)
    ErrorContext_enter ErrorContext_exit body.

(** [with log_exceptions(logger, message): body]. *)
Definition with_log_exceptions {A} (logger : Logger.PyLogger)
    (message : string) (body : StErr Logger.Logging A)
    : StErr Logger.Logging (option A) :=
  Logger.with_statement (ret (Logger.mk_log_exceptions logger message))
    Logger.log_exceptions_enter Logger.log_exceptions_exit body.

(** ** [main.py]

    What the script sees of its surroundings: [sys.executable], what
    [importlib.util.find_spec] answers for a package, and how a run of
    [subprocess.check_call] ends. *)

Module Main.

Inductive PipResult : Type :=
  | PipOk
  | CalledProcessError
  | PipRaises (e : Exc).

Record Env : Type := mkEnv {
  executable : string;
  find_spec : string → Outcome (option string);
  check_call : list string → PipResult
}.

(** The lines printed, with their interpolated fields. *)
Inductive Printed : Type :=
  | PrintMissing (packages : list string)
  | PrintInstalling
  | PrintInstalled
  | PrintRestart
  | PrintFailed
  | PrintManual
  | PrintPipInstall (packages : list string)
  | PrintOrSetup
  | PrintSetupScript.

(** The terminal, and the commands run so far. *)
Record Console : Type := mkConsole {
  stdout : list Printed;
  commands : list (list string)
}.

Definition print (line : Printed) : StErr Console () :=
  λ c, (Return (), mkConsole (stdout c ++ [line]) (commands c)).

Definition sys_exit (code : string) : StErr Console () :=
  raise (mkExc SystemExit code).

Definition required_packages : list (string * string) :=
  [("pygame", "pygame>=2.0.0")].

(** The first loop: the pip names of the packages without a spec. *)
Fixpoint collect_missing (env : Env) (packages : list (string * string))
    (missing_packages : list string) : StErr Console (list string) :=
  match packages with
  | [] => ret missing_packages
  | (package, pip_name) :: rest =>
      spec <- (λ c, (find_spec env package, c)) ;;
      match spec with
      | None => collect_missing env rest (missing_packages ++ [pip_name])
      | Some _ => collect_missing env rest missing_packages
      end
  end.

(** [check_and_install_dependencies()]. *)
Definition check_and_install_dependencies (env : Env) : StErr Console () :=
  missing_packages <- collect_missing env required_packages [] ;;
  match missing_packages with
  | [] => ret ()
  | _ =>
      print (PrintMissing missing_packages) ;;
      print PrintInstalling ;;
      let command :=
        [executable env; "-m"; "pip"; "install"; "--user"]
        ++ missing_packages in
      (λ c, (Return (), mkConsole (stdout c) (commands c ++ [command]))) ;;
      match check_call env command with
      | PipOk =>
          print PrintInstalled ;; print PrintRestart ;; sys_exit "0"
      | CalledProcessError =>
          print PrintFailed ;; print PrintManual ;;
          print (PrintPipInstall missing_packages) ;;
          print PrintOrSetup ;; print PrintSetupScript ;; sys_exit "1"
      | PipRaises e => raise e
      end
  end.

(** The script: the check, then the game. *)
Definition script (env : Env) (game_main : StErr Console ())
    : StErr Console () :=
  check_and_install_dependencies env ;; game_main.

End Main.

(** ** States of the logging system *)

(** [w] with one more record in the journal. *)
Definition logged (w : Logger.Logging) (line : Logger.Line) : Logger.Logging :=
  Logger.mkLogging (Logger.initialized w) (Logger.loggers w)
    (Logger.root_level w) (Logger.root_handlers w)
    (Logger.journal w ++ [line]) (Logger.stderr w) (Logger.clock w)
    (Logger.disk w).

(** The logger [_loggers] holds for [name], or the one about to be
    created, and the state once it is registered. *)
Definition the_logger (name : string) (w : Logger.Logging) : Logger.PyLogger :=
  default (Logger.getLogger name) (Logger.loggers w !! name).

Definition registered (name : string) (w : Logger.Logging) : Logger.Logging :=
  match Logger.loggers w !! name with
  | Some _ => w
  | None =>
      Logger.mkLogging (Logger.initialized w)
        (<[name := Logger.getLogger name]> (Logger.loggers w))
        (Logger.root_level w) (Logger.root_handlers w) (Logger.journal w)
        (Logger.stderr w) (Logger.clock w) (Logger.disk w)
  end.

(** [w] after one more reading of the clock. *)
Definition ticked (w : Logger.Logging) : Logger.Logging :=
  Logger.mkLogging (Logger.initialized w) (Logger.loggers w)
    (Logger.root_level w) (Logger.root_handlers w) (Logger.journal w)
    (Logger.stderr w) (S (Logger.clock w)) (Logger.disk w).

(** The process before anything touches logging: the root logger of
    [logging] is at WARNING and has no handler. *)
Definition boot (disk : string → option Exc) : Logger.Logging :=
  Logger.mkLogging false ∅ 30 [] [] [] 0 disk.

(** The four records [setup_logging] hands to the logger ["GameLogger"]. *)
Definition banner (console_level : Z) : list Logger.Line :=
  (λ text, Logger.mkLine "GameLogger" INFO text false) <$>
  [Logger.TxtLiteral (Logger.str_repeat "=" 60);
   Logger.TxtLiteral "Reversi Deluxe - Logging system initialized";
   Logger.TxtLevels console_level "DEBUG";
   Logger.TxtLiteral (Logger.str_repeat "=" 60)].

Definition console_handler (debug : bool) : Logger.Handler :=
  Logger.StreamHandler (if debug then 10 else 20)
    (LOG_FORMAT log_config) (LOG_DATE_FORMAT log_config).

Definition file_handler (log_file : string) : Logger.Handler :=
  Logger.RotatingFileHandler log_file 10485760 3 "utf-8" 10
    (LOG_FORMAT log_config) (LOG_DATE_FORMAT log_config).

(** The state [setup_logging] leaves when it goes through: [file] is the
    file handler when there is one, [warned] the exception printed
    otherwise. *)
Definition set_up (w : Logger.Logging) (debug : bool)
    (file : option Logger.Handler) (warned : list Exc) : Logger.Logging :=
  Logger.mkLogging true
    (Logger.loggers (registered "GameLogger" w))
    10
    (Logger.root_handlers w ++ console_handler debug :: option_list file)
    (Logger.journal w
     ++ ((λ l, Logger.mkLine (Logger.logger_name (the_logger "GameLogger" w))
                 INFO (Logger.line_text l) false)
         <$> banner (if debug then 10 else 20)))
    (Logger.stderr w ++ warned) (Logger.clock w) (Logger.disk w).

(** One call into [logger.py] from outside, or a change of the disk. *)
Inductive logger_call : Logger.Logging → Logger.Logging → Prop :=
  | call_setup_logging debug log_file w out w' :
      Logger.setup_logging debug log_file w = (out, w') → logger_call w w'
  | call_get_logger name w out w' :
      Logger.get_logger name w = (out, w') → logger_call w w'
  | call_disk w disk' :
      logger_call w
        (Logger.mkLogging (Logger.initialized w) (Logger.loggers w)
           (Logger.root_level w) (Logger.root_handlers w) (Logger.journal w)
           (Logger.stderr w) (Logger.clock w) disk').

(** What holds of the logging system whenever control is outside
    [logger.py]. *)
Definition settled (w : Logger.Logging) : Prop :=
  (∀ name l, Logger.loggers w !! name = Some l → l = Logger.getLogger name)
  ∧ if Logger.initialized w then
      ∃ debug file,
        Logger.root_handlers w = console_handler debug :: option_list file
        ∧ Logger.root_level w = 10
        ∧ Logger.journal w = banner (if debug then 10 else 20)
        ∧ is_Some (Logger.loggers w !! "GameLogger")
        ∧ (length (Logger.stderr w) + length (option_list file) = 1)%nat
    else
      Logger.root_handlers w = [] ∧ Logger.loggers w = ∅
      ∧ Logger.journal w = [] ∧ Logger.stderr w = []
      ∧ Logger.root_level w = 30.

(** A process whose logging is set up, and two functions for it: one
    that leaves through [sys.exit(0)], and a callable object (it has a
    [__module__] but no [__name__]) that returns 1. *)
Definition running : Logger.Logging :=
  (Logger.get_logger "error_handling" (boot (λ _, None))).2.

Definition quits : StErr Logger.Logging PyVal :=
  raise (mkExc SystemExit "0").

Definition timed : Logger.Function :=
  {| Logger.func_name := Some "timed";
     Logger.func_module := Some "game";
     Logger.func_call := λ _, ret (PInt 1) |}.

Definition callable_object : Logger.Function :=
  {| Logger.func_name := None;
     Logger.func_module := Some "game";
     Logger.func_call := λ _, ret (PInt 1) |}.

(** ** What the logged records say

    The defect a record logged by [validate_save_file] names.  The
    checks run in a fixed order: the three keys, [grid] being a list, its
    height, then row by row the row being a list, its length and its
    cells from left to right, and last [to_move].  A record names a
    defect only when every check before it passes, so a file has at most
    one first defect. *)
Definition first_defect (data : gmap string PyVal) (m : LogMsg) : Prop :=
  match m with
  | MsgMissingField field =>
      data !! field = None
      ∧ ∃ present rest,
          required_fields = present ++ field :: rest
          ∧ Forall (λ f, is_Some (data !! f)) present
  | _ =>
      ∃ grid size to_move,
        data !! "grid" = Some grid ∧ data !! "size" = Some size
        ∧ data !! "to_move" = Some to_move
        ∧ match m with
          | MsgGridNotList => ∀ rows, grid ≠ PList rows
          | MsgGridHeight height size' =>
              size' = size
              ∧ ∃ rows, grid = PList rows ∧ height = length rows
                        ∧ ¬ denotes size (Z.of_nat height)
          | MsgRowNotList i =>
              ∃ rows row,
                grid = PList rows
                ∧ denotes size (Z.of_nat (length rows))
                ∧ Forall (square_row size) (take i rows)
                ∧ rows !! i = Some row ∧ ∀ cells, row ≠ PList cells
          | MsgRowLength i len size' =>
              size' = size
              ∧ ∃ rows cells,
                  grid = PList rows
                  ∧ denotes size (Z.of_nat (length rows))
                  ∧ Forall (square_row size) (take i rows)
                  ∧ rows !! i = Some (PList cells)
                  ∧ len = length cells ∧ ¬ denotes size (Z.of_nat len)
          | MsgInvalidCell i j cell =>
              ∃ rows cells,
                grid = PList rows
                ∧ denotes size (Z.of_nat (length rows))
                ∧ Forall (square_row size) (take i rows)
                ∧ rows !! i = Some (PList cells)
                ∧ denotes size (Z.of_nat (length cells))
                ∧ Forall cell_value (take j cells)
                ∧ cells !! j = Some cell ∧ ¬ cell_value cell
          | MsgInvalidToMove to_move' =>
              to_move' = to_move
              ∧ ∃ rows,
                  grid = PList rows
                  ∧ denotes size (Z.of_nat (length rows))
                  ∧ Forall (square_row size) rows
                  ∧ ¬ (denotes to_move 1 ∨ denotes to_move 2)
          | _ => False
          end
  end.

(** The defect a record logged by [validate_board_size] names. *)
Definition explains_size (size : PyVal) (m : LogMsg) : Prop :=
  match m with
  | MsgBoardSizeNotInt v => v = size ∧ as_int size = None
  | MsgBoardSizeRange n lo hi =>
      as_int size = Some n ∧ lo = 4 ∧ hi = 16 ∧ (n < 4 ∨ 16 < n)
  | MsgBoardSizeOdd n =>
      as_int size = Some n ∧ 4 ≤ n ≤ 16 ∧ Z.odd n = true
  | _ => False
  end.

(** A callable object without [__name__], failing with [OSError]. *)
Definition nameless : Callable :=
  {| fn_name := None;
     fn_call := λ _, raise (mkExc OSError "disk") |}.

(** A 4 by 4 save file, and one whose third row holds a 7. *)
Definition save_4x4 : gmap string PyVal :=
  int_save 4 [[0; 0; 0; 0]; [0; 2; 1; 0]; [0; 1; 2; 0]; [0; 0; 0; 0]] 1.
Definition save_bad_cell : gmap string PyVal :=
  int_save 4 [[0; 0; 0; 0]; [0; 2; 1; 0]; [0; 7; 2; 0]; [0; 0; 0; 0]] 1.

(** * Properties of the validators *)

Section Validators.

#[local] Arguments py_in_ints : simpl never.
#[local] Arguments py_eq_int : simpl never.

Lemma is_number_int (m n : Z) : is_number (PInt m) n ↔ m = n.
Proof. unfold is_number, py_eq_int. apply Z.eqb_eq. Qed.

Lemma py_in_cells (v : PyVal) : py_in_ints v [0; 1; 2] = true ↔ cell_ok v.
Proof.
  unfold py_in_ints, cell_ok, is_number; cbn [existsb].
  rewrite !orb_true_iff. intuition discriminate.
Qed.

Lemma py_in_players (v : PyVal) :
  py_in_ints v [1; 2] = true ↔ is_number v 1 ∨ is_number v 2.
Proof.
  unfold py_in_ints, is_number; cbn [existsb].
  rewrite !orb_true_iff. intuition discriminate.
Qed.

Lemma check_cells_none (i j : nat) (row : list PyVal) :
  check_cells i j row = None ↔ Forall cell_ok row.
Proof.
  revert j. induction row as [|cell rest IH]; intros j; simpl.
  - split; [constructor | reflexivity].
  - destruct (py_in_ints cell [0; 1; 2]) eqn:Hin; simpl.
    + rewrite IH. apply py_in_cells in Hin.
      split; [by constructor | by inversion 1].
    + split; [discriminate |].
      inversion 1 as [|? ? Hc _]; subst.
      apply py_in_cells in Hc. congruence.
Qed.

Lemma check_rows_none (size : PyVal) (i : nat) (rows : list PyVal) :
  check_rows size i rows = None ↔ Forall (row_ok size) rows.
Proof.
  revert i. induction rows as [|row rest IH]; intros i; simpl.
  - split; [constructor | reflexivity].
  - rewrite Forall_cons. unfold row_ok at 1.
    destruct row as [| | | | |cells|];
      try (split; [discriminate | by intros [(? & ? & _) _]]).
    destruct (py_eq_int size (Z.of_nat (length cells))) eqn:Hlen; simpl.
    + destruct (check_cells i 0 cells) eqn:Hcells.
      * split; [discriminate |].
        intros [(cells' & Heq & _ & Hc) _]. injection Heq as <-.
        apply (check_cells_none i 0) in Hc. congruence.
      * apply check_cells_none in Hcells. rewrite IH.
        split; [|tauto].
        intros HF. split; [|done]. by exists cells.
    + split; [discriminate |].
      intros [(cells' & Heq & Hl & _) _]. injection Heq as <-.
      unfold is_number in Hl. congruence.
Qed.

(** What a run of [validate_save_file] does: it returns, never raises,
    logs one record exactly when it rejects, and accepts exactly the
    data of the right shape. *)
Lemma validate_save_file_run (data : gmap string PyVal) (log : Log) :
  ∃ b rest,
    validate_save_file data log = (Return b, log ++ rest)
    ∧ (b = true → rest = [])
    ∧ (b = true ↔ save_file_ok data).
Proof.
  unfold validate_save_file, required_fields, save_file_ok; simpl.
  destruct (data !! "grid") as [grid|] eqn:Hgrid; simpl;
    [|eexists false, _; split; [reflexivity|];
      split; [discriminate|]; split; [discriminate|];
      by intros (? & ? & ? & ? & _)].
  destruct (data !! "size") as [size|] eqn:Hsize; simpl;
    [|eexists false, _; split; [reflexivity|];
      split; [discriminate|]; split; [discriminate|];
      by intros (? & ? & ? & _ & ? & _)].
  destruct (data !! "to_move") as [to_move|] eqn:Hmove; simpl;
    [|eexists false, _; split; [reflexivity|];
      split; [discriminate|]; split; [discriminate|];
      by intros (? & ? & ? & _ & _ & ? & _)].
  destruct grid as [| | | | |rows|];
    try (eexists false, _; split; [reflexivity|];
         split; [discriminate|]; split; [discriminate|];
         by intros (? & ? & ? & ? & _)).
  destruct (py_eq_int size (Z.of_nat (length rows))) eqn:Hheight; simpl.
  2:{ eexists false, _; split; [reflexivity|].
      split; [discriminate|]. split; [discriminate|].
      intros (? & ? & ? & [= <-] & [= <-] & _ & Hn & _).
      unfold is_number in Hn. congruence. }
  destruct (check_rows size 0 rows) eqn:Hrows.
  { eexists false, _; split; [reflexivity|].
    split; [discriminate|]. split; [discriminate|].
    intros (? & ? & ? & [= <-] & [= <-] & _ & _ & HF & _).
    apply (check_rows_none size 0) in HF. congruence. }
  apply check_rows_none in Hrows.
  destruct (py_in_ints to_move [1; 2]) eqn:Hplayer; simpl.
  - exists true, []. rewrite app_nil_r. split; [reflexivity|].
    split; [done|]. split; [|done]. intros _.
    exists rows, size, to_move. apply py_in_players in Hplayer.
    by repeat split.
  - eexists false, _; split; [reflexivity|].
    split; [discriminate|]. split; [discriminate|].
    intros (? & ? & ? & _ & _ & [= <-] & _ & _ & Hp).
    apply py_in_players in Hp. congruence.
Qed.

(** An integer grid has the right shape when its dimensions and
    entries do. *)
Lemma int_rows_ok (n : Z) (rows : list (list Z)) :
  Forall (λ r, Z.of_nat (length r) = n ∧ Forall (λ x, 0 ≤ x ≤ 2) r) rows →
  Forall (row_ok (PInt n)) ((λ r, PList (PInt <$> r)) <$> rows).
Proof.
  intros HF. apply Forall_fmap. eapply Forall_impl; [exact HF|].
  intros r [Hlen Hcells]; simpl. exists (PInt <$> r).
  split; [done|]. rewrite length_fmap. split; [by apply is_number_int|].
  apply Forall_fmap. eapply Forall_impl; [exact Hcells|].
  intros x Hx; simpl in *. unfold cell_ok. rewrite !is_number_int. lia.
Qed.

Lemma validate_board_size_int (n : Z) (log : Log) :
  ∃ b rest,
    validate_board_size (PInt n) log = (Return b, log ++ rest)
    ∧ (b = true ↔ supported_size n).
Proof.
  unfold validate_board_size, supported_size; simpl.
  destruct (Z.ltb_spec n 4); simpl;
    [eexists false, _; split; [reflexivity|]; split; [done | lia]|].
  destruct (Z.gtb_spec n 16); simpl;
    [eexists false, _; split; [reflexivity|]; split; [done | lia]|].
  assert (Hn : n ∈ seqZ 4 13) by (apply elem_of_seqZ; lia).
  vm_compute seqZ in Hn. rewrite !elem_of_cons in Hn.
  destruct Hn as [->|[->|[->|[->|[->|[->|[->|[->|[->|[->|[->|[->|[->|Hn]]]]]]]]]]]]];
    [..|by apply elem_of_nil in Hn]; simpl;
    first [ exists true, []; rewrite app_nil_r; split; [reflexivity|];
            split; [intros _; split; [lia | reflexivity] | done]
          | eexists false, _; split; [reflexivity|];
            split; [done | intros [_ ?]; discriminate] ].
Qed.

(** C9: [validate_board_size(size)] returns [True] exactly when [size]
    is an integer with [4 <= size <= 16] and even, that is exactly when
    it is one of 4, 6, 8, 10, 12, 14, 16; on every other input it
    returns [False], and it never raises. *)
Theorem validate_board_size_spec (size : PyVal) (log : Log) :
  ∃ b rest,
    validate_board_size size log = (Return b, log ++ rest)
    ∧ (b = true ↔ ∃ n, size = PInt n ∧ 4 ≤ n ≤ 16 ∧ Z.even n = true)
    ∧ (b = true ↔ ∃ n, size = PInt n ∧ n ∈ VALID_BOARD_SIZES game_config).
Proof.
  assert (Hlist : ∀ n, supported_size n ↔ n ∈ VALID_BOARD_SIZES game_config).
  { intros n. unfold supported_size; simpl. rewrite !elem_of_cons.
    split.
    - intros [Hr He].
      assert (Hn : n ∈ seqZ 4 13) by (apply elem_of_seqZ; lia).
      vm_compute seqZ in Hn. rewrite !elem_of_cons in Hn.
      destruct Hn as [->|[->|[->|[->|[->|[->|[->|[->|[->|[->|[->|[->|[->|Hn]]]]]]]]]]]]];
        [..|by apply elem_of_nil in Hn]; first [discriminate He | tauto].
    - intros [->|[->|[->|[->|[->|[->|[->|Hn]]]]]]];
        [..|by apply elem_of_nil in Hn]; split; first [lia | reflexivity]. }
  destruct size as [|b|n|f|s|l|d];
    try (eexists false, _; split; [reflexivity|];
         split; (split; [discriminate | by intros (? & ? & _)])).
  - destruct b; (eexists false, _; split; [reflexivity|];
         split; (split; [discriminate | by intros (? & ? & _)])).
  - destruct (validate_board_size_int n log) as (b & rest & Hrun & Hb).
    exists b, rest. split; [exact Hrun|]. rewrite Hb. split.
    + split; [by exists n | by intros (? & [= <-] & ?)].
    + rewrite Hlist. split; [by exists n | by intros (? & [= <-] & ?)].
Qed.

Lemma inject_Z_eq (a b : Z) : Qeq (inject_Z a) (inject_Z b) → a = b.
Proof. unfold Qeq; simpl. lia. Qed.

(** The exact comparison of a float with an integer finds them equal
    exactly when the rational the float encodes is that integer. *)
Lemma float_value_eq (f : spec_float) (n : Z) :
  float_cmp_int f n = Some Eq
  ↔ ∃ q, float_value f = Some q ∧ Qeq q (inject_Z n).
Proof.
  destruct f as [s|s| |s m e]; unfold float_cmp_int, float_value.
  - split.
    + intros [= H]. destruct n; try discriminate. by eexists.
    + intros (q & [= <-] & H). apply inject_Z_eq in H as <-. done.
  - split; [by destruct s | by intros (? & ? & _)].
  - split; [done | by intros (? & ? & _)].
  - set (v := if s then Z.neg m else Z.pos m).
    destruct (Z.leb_spec 0 e) as [He|He].
    + assert (Hq : Qeq (Qmult (inject_Z v) (Qpower (inject_Z 2) e))
                       (inject_Z (v * 2 ^ e))).
      { rewrite inject_Z_mult.
        apply Qmult_comp; [apply Qeq_refl|].
        apply Qeq_sym, Zpower_Qpower. done. }
      split.
      * intros [= H]. apply Z.compare_eq in H.
        eexists; split; [reflexivity|].
        eapply Qeq_trans; [exact Hq|]. rewrite H. apply Qeq_refl.
      * intros (q & [= <-] & H).
        assert (H' := Qeq_trans _ _ _ (Qeq_sym _ _ Hq) H).
        apply inject_Z_eq in H'. by rewrite H', Z.compare_refl.
    + destruct e as [|p|p]; try lia.
      change (- Z.neg p) with (Z.pos p).
      assert (Hpos : 0 < 2 ^ Z.pos p) by (apply Z.pow_pos_nonneg; lia).
      assert (Hq : ∀ n, Qeq (Qmult (inject_Z v) (Qpower (inject_Z 2) (Z.neg p)))
                       (inject_Z n) ↔ v = n * 2 ^ Z.pos p).
      { intros k.
        change (Qpower (inject_Z 2) (Z.neg p))
          with (Qinv (Qpower (inject_Z 2) (Z.pos p))).
        rewrite <- Zpower_Qpower by done.
        destruct (2 ^ Z.pos p) as [|K|K] eqn:HK; try lia.
        unfold Qeq, Qinv, Qmult, inject_Z; simpl. lia. }
      split.
      * intros [= H]. apply Z.compare_eq in H.
        eexists; split; [reflexivity|]. by apply Hq.
      * intros (q & [= <-] & H). apply Hq in H.
        by rewrite H, Z.compare_refl.
Qed.

(** The comparison [v == n] of the code holds exactly when the value
    [v] stands for the number [n]: an [int] equal to [n], the [bool]
    whose number is [n], or a float whose exact value is [n]. *)
Lemma is_number_denotes (v : PyVal) (n : Z) : is_number v n ↔ denotes v n.
Proof.
  unfold is_number, py_eq_int. split.
  - destruct v as [|b|m|f|s|l|d]; try discriminate.
    + intros <-%Z.eqb_eq. destruct b; constructor.
    + intros <-%Z.eqb_eq. constructor.
    + destruct (float_cmp_int f n) as [[| |]|] eqn:Hc; try discriminate.
      intros _. apply float_value_eq in Hc as (q & ? & ?).
      by econstructor.
  - intros [m|b|f q m Hv Hq].
    + apply Z.eqb_refl.
    + destruct b; reflexivity.
    + assert (float_cmp_int f m = Some Eq) as ->; [|done].
      apply float_value_eq. by exists q.
Qed.

Lemma cell_ok_value (cell : PyVal) : cell_ok cell ↔ cell_value cell.
Proof. unfold cell_ok, cell_value. by rewrite !is_number_denotes. Qed.

Lemma row_ok_square (size row : PyVal) :
  row_ok size row ↔ square_row size row.
Proof.
  unfold row_ok, square_row. f_equiv; intros cells.
  by rewrite is_number_denotes, (Forall_iff _ cells _ cell_ok_value).
Qed.

Lemma save_file_ok_valid (data : gmap string PyVal) :
  save_file_ok data ↔ save_file_valid data.
Proof.
  unfold save_file_ok, save_file_valid.
  do 3 (f_equiv; intros ?).
  by rewrite !is_number_denotes, (Forall_iff _ _ _ (row_ok_square _)).
Qed.

Lemma denotes_int_eq (m n : Z) : denotes (PInt m) n ↔ m = n.
Proof. split; [by inversion 1 | intros ->; constructor]. Qed.

(** C1: on every mapping, [validate_save_file] returns [True] exactly
    when the keys [grid], [size] and [to_move] are present, [grid] is a
    list of exactly [size] rows, each row a list of exactly [size]
    cells, every cell is in {0, 1, 2} and [to_move] is 1 or 2; every
    other mapping is rejected with [False].  The run never raises and
    touches nothing but the log.  The numbers are those the values
    stand for ([denotes]): an [int], [True] and [False] as 1 and 0, and
    a float with exactly that value. *)
Theorem validate_save_file_spec (data : gmap string PyVal) (log : Log) :
  ∃ b rest,
    validate_save_file data log = (Return b, log ++ rest)
    ∧ (b = true ↔ save_file_valid data).
Proof.
  destruct (validate_save_file_run data log) as (b & rest & Hrun & _ & Hb).
  exists b, rest. by rewrite <- save_file_ok_valid.
Qed.

(** Which values count: the file that spells its numbers as [True],
    [2.0], [-0.0] and [1] is accepted; 0.5, the string ["1"] and [None]
    stand for none of the numbers asked for. *)
Lemma mixed_file_accepted :
  validate_save_file save_mixed [] = (Return true, [])
  ∧ save_file_valid save_mixed
  ∧ ¬ denotes (PFloat half) 0 ∧ ¬ denotes (PFloat half) 1
  ∧ ¬ denotes (PStr "1") 1 ∧ ¬ denotes PNone 0.
Proof.
  split; [vm_compute; reflexivity|].
  split.
  { rewrite <- save_file_ok_valid.
    destruct (validate_save_file_run save_mixed []) as (b & rest & Hrun & _ & Hb).
    apply Hb. vm_compute in Hrun. congruence. }
  rewrite <- !is_number_denotes. unfold is_number.
  repeat split; vm_compute; discriminate.
Qed.

(** C2, as the code has it: a save file over integers whose grid is
    [n] by [n] with cells in {0, 1, 2} and whose [to_move] is 1 or 2 is
    accepted by [validate_save_file] whatever [n] is; a size that is
    not an even integer within [4, 16] is turned down by
    [validate_board_size] only. *)
Theorem validate_save_file_any_size
    (n : Z) (rows : list (list Z)) (to_move : Z) (log : Log) :
  Z.of_nat (length rows) = n →
  Forall (λ r, Z.of_nat (length r) = n ∧ Forall (λ x, 0 ≤ x ≤ 2) r) rows →
  1 ≤ to_move ≤ 2 →
  validate_save_file (int_save n rows to_move) log = (Return true, log)
  ∧ (¬ supported_size n →
     ∃ rest, validate_board_size (PInt n) log = (Return false, log ++ rest)).
Proof.
  intros Hheight Hrows Hmove. split.
  - destruct (validate_save_file_run (int_save n rows to_move) log)
      as (b & rest & Hrun & Hlog & Hb).
    assert (b = true) as ->.
    { apply Hb. exists ((λ r, PList (PInt <$> r)) <$> rows), (PInt n),
        (PInt to_move).
      unfold int_save, int_grid. repeat split; try by simplify_map_eq.
      - apply is_number_int. by rewrite length_fmap.
      - by apply int_rows_ok.
      - rewrite !is_number_int. lia. }
    rewrite Hrun, Hlog, app_nil_r; done.
  - intros Hbad.
    destruct (validate_board_size_int n log) as (b & rest & Hrun & Hb).
    destruct b; [by destruct Hbad; apply Hb | by exists rest].
Qed.

(** The 3 by 3 file is accepted. *)
Lemma validate_save_file_any_size_witness :
  validate_save_file save_3x3 [] = (Return true, [])
  ∧ (¬ supported_size 3 →
     ∃ rest, validate_board_size (PInt 3) [] = (Return false, [] ++ rest)).
Proof.
  apply (validate_save_file_any_size 3 [[0; 1; 2]; [2; 1; 0]; [0; 0; 0]] 1).
  - reflexivity.
  - repeat constructor; simpl; lia.
  - lia.
Defined.

(** C2, as stated, fails: both files carry an unsupported size and both
    are accepted. *)
Lemma unsupported_sizes_accepted :
  (¬ supported_size 3
   ∧ validate_save_file save_3x3 [] = (Return true, []))
  ∧ (¬ supported_size 0
     ∧ validate_save_file save_empty [] = (Return true, [])).
Proof.
  unfold supported_size.
  split; (split; [intros [? ?]; first [lia | discriminate]
                 | vm_compute; reflexivity]).
Qed.

End Validators.

(** * Properties of the wrappers *)

Section Wrappers.

(** Every class below [Exception] is caught by the last clause of the
    decorator at the latest, and every handler of it logs one record
    and returns the default. *)
Lemma dispatch_file_errors (r : PyVal) (error_message : string)
    (func : Callable) (args : list PyVal) (e : Exc) (log log' : Log) :
  fn_call func args log = (Raise e, log') →
  if isinstance_exc e Exception then
    ∃ m, fn_call (handle_file_errors r error_message func) args log
         = (Return r, log' ++ [mkLog ERROR m])
  else
    fn_call (handle_file_errors r error_message func) args log
    = (Raise e, log').
Proof.
  intros Hcall. unfold handle_file_errors, try_except; simpl.
  rewrite Hcall. destruct e as [cls text].
  destruct cls; vm_compute; eauto.
Qed.

Lemma safe_execute_raise (func : Callable) (name : string)
    (args : list PyVal) (d : PyVal) (error_msg : string)
    (e : Exc) (log log' : Log) :
  fn_name func = Some name →
  fn_call func args log = (Raise e, log') →
  if isinstance_exc e Exception then
    ∃ m, safe_execute func args d error_msg log
         = (Return d, log' ++ [mkLog ERROR m])
  else safe_execute func args d error_msg log = (Raise e, log').
Proof.
  intros Hname Hcall. unfold safe_execute, try_except, dispatch.
  rewrite Hcall. destruct (isinstance_exc e Exception); [|reflexivity].
  unfold getattr_name. rewrite Hname.
  case_bool_decide; eexists; reflexivity.
Qed.

(** C10, as the code has it: when the wrapped function returns, both
    wrappers return its result; when it raises an instance of
    [Exception], [safe_execute] logs and returns [default] and the
    decorated function logs and returns [default_return]; an exception
    outside [Exception] ([SystemExit], [KeyboardInterrupt],
    [GeneratorExit]) propagates through both. *)
Theorem wrappers_catch_Exception (func : Callable) (name : string)
    (args : list PyVal) (d r : PyVal) (error_msg error_message : string)
    (log : Log) :
  fn_name func = Some name →
  match fn_call func args log with
  | (Return v, log') =>
      safe_execute func args d error_msg log = (Return v, log')
      ∧ fn_call (handle_file_errors r error_message func) args log
        = (Return v, log')
  | (Raise e, log') =>
      if isinstance_exc e Exception then
        (∃ m, safe_execute func args d error_msg log
              = (Return d, log' ++ [mkLog ERROR m]))
        ∧ (∃ m, fn_call (handle_file_errors r error_message func) args log
                = (Return r, log' ++ [mkLog ERROR m]))
      else
        safe_execute func args d error_msg log = (Raise e, log')
        ∧ fn_call (handle_file_errors r error_message func) args log
          = (Raise e, log')
  end.
Proof.
  intros Hname.
  destruct (fn_call func args log) as [[v|e] log'] eqn:Hcall.
  - unfold safe_execute, handle_file_errors, try_except; simpl.
    by rewrite Hcall.
  - pose proof (safe_execute_raise func name args d error_msg e log log'
                  Hname Hcall) as Hsafe.
    pose proof (dispatch_file_errors r error_message func args e log log'
                  Hcall) as Hfile.
    destruct (isinstance_exc e Exception); done.
Qed.

(** A function failing with [OSError] under both wrappers. *)
Lemma wrappers_catch_Exception_witness :
  (∃ m, safe_execute fails [] (PInt 7) "" []
        = (Return (PInt 7), [] ++ [mkLog ERROR m]))
  ∧ (∃ m, fn_call (handle_file_errors PNone "load" fails) [] []
          = (Return PNone, [] ++ [mkLog ERROR m])).
Proof.
  apply (wrappers_catch_Exception fails "fails" [] (PInt 7) PNone
           "" "load" []).
  reflexivity.
Defined.

(** C10, as stated, fails: [safe_execute] does not return the default
    when the function leaves through [sys.exit]; the exception reaches
    the caller. *)
Lemma safe_execute_propagates_SystemExit :
  safe_execute exits [] (PInt 7) "" []
  = (Raise (mkExc SystemExit "0"), []).
Proof. reflexivity. Qed.

End Wrappers.

(** * Properties of the board *)

Section BoardFacts.
Import Reversi.

Lemma construct_opening : construct 8 = Return opening.
Proof. reflexivity. Qed.

Lemma make_move_legal (b : Board) (m : Move) :
  m ∈ legal_moves b (to_move b) →
  make_move m b
  = (Return (),
     {| size := size b;
        grid := apply_move (grid b) m;
        to_move := opponent (to_move b);
        history := (grid b, to_move b) :: history b;
        redo_stack := [];
        move_list := move_list b ++ [(color m, row m, col m)] |}).
Proof.
  intros Hin. unfold make_move, bind, get, put; simpl.
  by rewrite bool_decide_true.
Qed.

(** Every generated move is a placement of the mover with a non-empty
    flip set. *)
Lemma legal_moves_flips (b : Board) (mover : Color) (m : Move) :
  m ∈ legal_moves b mover → flips m ≠ [] ∧ color m = mover.
Proof.
  unfold legal_moves, grid_moves.
  intros (r & Hm & _)%list_elem_of_bind.
  apply list_elem_of_bind in Hm as (c & Hm & _).
  destruct (cell_at (grid b) r c) as [[|d]|]; try by apply elem_of_nil in Hm.
  destruct (flips_from (grid b) mover r c) as [|p f] eqn:Hflips;
    [by apply elem_of_nil in Hm|].
  apply list_elem_of_singleton in Hm as ->. by simpl.
Qed.

(** A move clears the redo stack and logs itself; [redo] after [undo]
    brings the position after the move back. *)
Lemma make_move_undo_redo (b : Board) (m : Move) :
  m ∈ legal_moves b (to_move b) →
  ∃ b1 b2 b3,
    make_move m b = (Return (), b1)
    ∧ redo_stack b1 = []
    ∧ length (history b1) = S (length (history b))
    ∧ undo b1 = (Return true, b2)
    ∧ redo b2 = (Return true, b3)
    ∧ grid b3 = grid b1 ∧ to_move b3 = to_move b1.
Proof.
  intros Hin. eexists _, _, _. split; [by apply make_move_legal|].
  repeat split.
Qed.

(** [pass_turn] hands the move over and logs [(-1, -1)]. *)
Lemma pass_turn_logged (b : Board) :
  ∃ b', pass_turn b = (Return (), b')
        ∧ to_move b' = opponent (to_move b)
        ∧ grid b' = grid b
        ∧ move_list b' = move_list b ++ [(to_move b, -1, -1)].
Proof. eexists. by repeat split. Qed.

(** C3: a move that is not legal for the side to move makes
    [make_move] fail with [InvalidMoveError], and the board is left as
    it was: grid, to_move, history, redo_stack and move_list are
    unchanged. *)
Theorem make_move_illegal (b : Board) (m : Move) :
  m ∉ legal_moves b (to_move b) →
  ∃ e b',
    make_move m b = (Raise e, b')
    ∧ exc_class e = InvalidMoveError
    ∧ b' = b
    ∧ grid b' = grid b ∧ to_move b' = to_move b
    ∧ history b' = history b ∧ redo_stack b' = redo_stack b
    ∧ move_list b' = move_list b.
Proof.
  intros Hout. unfold make_move, bind, get, raise; simpl.
  rewrite bool_decide_false by done; simpl.
  eexists _, b. by repeat split.
Qed.

(** A disc on the corner of the opening position is refused. *)
Lemma make_move_illegal_witness :
  ∃ e b',
    make_move corner_move opening = (Raise e, b')
    ∧ exc_class e = InvalidMoveError
    ∧ b' = opening
    ∧ grid b' = grid opening ∧ to_move b' = to_move opening
    ∧ history b' = history opening ∧ redo_stack b' = redo_stack opening
    ∧ move_list b' = move_list opening.
Proof.
  apply (make_move_illegal opening corner_move).
  apply (bool_decide_unpack _). vm_compute. exact I.
Defined.

(** C4: on a reachable board, a legal move followed by [undo] brings
    back the grid and the side to move exactly, and [undo] answers
    [True]; [undo] on an empty history answers [False] and changes
    nothing. *)
Theorem make_move_then_undo (b : Board) (m : Move) :
  reachable b →
  m ∈ legal_moves b (to_move b) →
  (∃ b1 b2,
      make_move m b = (Return (), b1)
      ∧ undo b1 = (Return true, b2)
      ∧ grid b2 = grid b ∧ to_move b2 = to_move b)
  ∧ (∀ b0, history b0 = [] → undo b0 = (Return false, b0)).
Proof.
  intros _ Hin. split.
  - eexists _, _. split; [by apply make_move_legal|].
    split; [reflexivity|]. by split.
  - intros b0 Hempty. unfold undo, bind, get, ret; simpl.
    by rewrite Hempty.
Qed.

(** The first opening move, made and taken back. *)
Lemma make_move_then_undo_witness :
  (∃ b1 b2,
      make_move first_move opening = (Return (), b1)
      ∧ undo b1 = (Return true, b2)
      ∧ grid b2 = grid opening ∧ to_move b2 = to_move opening)
  ∧ (∀ b0, history b0 = [] → undo b0 = (Return false, b0)).
Proof.
  apply (make_move_then_undo opening first_move).
  - exact (reach_construct 8 opening construct_opening).
  - apply (bool_decide_unpack _). vm_compute. exact I.
Defined.

(** C7: on the freshly built 8 by 8 board, [legal_moves(BLACK)] is the
    four moves at (2,3), (3,2), (4,5), (5,4), in row-major order, each
    flipping exactly one cell. *)
Theorem opening_legal_moves :
  construct 8 = Return opening
  ∧ (λ m, (row m, col m)) <$> legal_moves opening Black
    = [(2, 3); (3, 2); (4, 5); (5, 4)]
  ∧ Forall (λ m, length (flips m) = 1%nat ∧ color m = Black)
      (legal_moves opening Black)
  ∧ legal_moves opening Black
    = [mkMove 2 3 Black [(3, 3)]; mkMove 3 2 Black [(3, 3)];
       mkMove 4 5 Black [(4, 4)]; mkMove 5 4 Black [(4, 4)]].
Proof.
  assert (Hmoves : legal_moves opening Black
    = [mkMove 2 3 Black [(3, 3)]; mkMove 3 2 Black [(3, 3)];
       mkMove 4 5 Black [(4, 4)]; mkMove 5 4 Black [(4, 4)]])
    by (vm_compute; reflexivity).
  rewrite Hmoves. repeat split; repeat constructor.
Qed.

End BoardFacts.

(** * Properties of the search engine *)

Section SearchFacts.
Import Reversi.

Variable P : Policy.

(** ** Ordering and scoring keep the moves *)

Lemma order_moves_elem (ai : AI) (g : Grid) (moves : list Move) (m : Move) :
  m ∈ order_moves ai g moves ↔ m ∈ moves.
Proof.
  unfold order_moves. rewrite !elem_of_app, !list_elem_of_In, !filter_In.
  destruct (cached ai g m), (is_corner g m); simpl; intuition discriminate.
Qed.

Lemma order_moves_nil (ai : AI) (g : Grid) (moves : list Move) :
  order_moves ai g moves = [] → moves = [].
Proof.
  intros Hnil. destruct moves as [|m rest]; [done|].
  assert (Hin : m ∈ order_moves ai g (m :: rest))
    by (apply order_moves_elem; left).
  rewrite Hnil in Hin. by apply elem_of_nil in Hin.
Qed.

Lemma score_moves_fst (d : nat) (me : Color) (g : Grid)
    (moves : list Move) (ai : AI) :
  (score_moves P d me g moves ai).1.*1 = moves.
Proof.
  revert ai. induction moves as [|m rest IH]; intros ai; simpl; [done|].
  destruct (search P d me (apply_move g m) (opponent me) None None ai)
    as [v ai1].
  specialize (IH ai1).
  destruct (score_moves P d me g rest ai1) as [scored ai2].
  cbn [fst fmap list_fmap] in *. by f_equal.
Qed.

Lemma best_score_attained (scored : list (Move * Z)) :
  scored ≠ [] → ∃ mv, mv ∈ scored ∧ best_score scored = Some mv.2.
Proof.
  induction scored as [|mv rest IH]; [done|]. intros _.
  unfold best_score in *; simpl. unfold tighten at 1.
  destruct rest as [|mv' rest'].
  - exists mv. split; [left | done].
  - destruct IH as (best & Hbest & ->); [done|].
    destruct (Z.max_spec best.2 mv.2) as [[_ ->]|[_ ->]].
    + exists mv. split; [left | done].
    + exists best. split; [by right | done].
Qed.

Lemma candidates_pick (scored : list (Move * Z)) (i : nat) :
  scored ≠ [] →
  ∃ mv, List.filter (is_best (best_score scored)) scored
          !! (i `mod` length (List.filter (is_best (best_score scored))
                                scored))%nat = Some mv
        ∧ mv ∈ scored.
Proof.
  intros Hne. set (cands := List.filter _ _).
  assert (Hpos : (0 < length cands)%nat).
  { destruct (best_score_attained scored Hne) as (mv & Hin & Hbest).
    assert (Hc : mv ∈ cands).
    { apply list_elem_of_In, filter_In. split; [by apply list_elem_of_In|].
      unfold is_best. by apply bool_decide_eq_true. }
    destruct cands; [by apply elem_of_nil in Hc | simpl; lia]. }
  destruct (lookup_lt_is_Some_2 cands (i `mod` length cands)%nat)
    as [mv Hmv]; [apply Nat.mod_upper_bound; lia|].
  exists mv. split; [done|].
  apply list_elem_of_lookup_2 in Hmv.
  apply list_elem_of_In, filter_In in Hmv as [Hmv _].
  by apply list_elem_of_In.
Qed.

(** C5: [choose] never raises; it answers [None] exactly when the side
    has no legal move, and otherwise a move of [legal_moves(color)]. *)
Theorem choose_legal (ai : AI) (b : Board) (c : Color) :
  well_formed b →
  ∃ r ai',
    choose P b c ai = (Return r, ai')
    ∧ (∀ m, r = Some m → m ∈ legal_moves b c)
    ∧ (legal_moves b c ≠ [] → ∃ m, r = Some m ∧ m ∈ legal_moves b c)
    ∧ (r = None ↔ legal_moves b c = []).
Proof.
  intros _. unfold choose, bind, get, put, ret; simpl.
  destruct (legal_moves b c) as [|m0 rest] eqn:Hmoves.
  { eexists None, _. split; [reflexivity|]. by repeat split. }
  set (ai0 := {| max_depth := max_depth ai; transposition_table := _;
                 nodes_searched := 0; rng := rng ai |}).
  set (ordered := order_moves ai0 (grid b) (m0 :: rest)).
  set (depth := adaptive_depth P _ _).
  pose proof (score_moves_fst (pred depth) c (grid b) ordered (tick ai0))
    as Hfst.
  destruct (score_moves P (pred depth) c (grid b) ordered (tick ai0))
    as [scored ai1]; simpl in Hfst.
  destruct (randrange P (rng ai1) _) as [i seed] eqn:Hdraw.
  assert (Hne : scored ≠ []).
  { intros ->. simpl in Hfst. symmetry in Hfst.
    by apply order_moves_nil in Hfst. }
  destruct (candidates_pick scored i Hne) as ([m v] & Hpick & Hin).
  assert (Hlegal : m ∈ m0 :: rest).
  { apply (order_moves_elem ai0 (grid b)). fold ordered. rewrite <- Hfst.
    apply list_elem_of_fmap. by exists (m, v). }
  eexists (Some m), _. split.
  - by rewrite Hpick.
  - split; [by intros ? [= <-]|]. split; [by exists m|]. by split.
Qed.

(** ** The table against the node counter *)

Lemma paid_for_refl (ai : AI) : paid_for ai ai.
Proof. unfold paid_for; lia. Qed.

Lemma paid_for_trans (ai1 ai2 ai3 : AI) :
  paid_for ai1 ai2 → paid_for ai2 ai3 → paid_for ai1 ai3.
Proof. unfold paid_for; lia. Qed.

Lemma paid_for_tick (ai ai' : AI) : paid_for (tick ai) ai' → paid_for ai ai'.
Proof. unfold paid_for, tick; simpl; lia. Qed.

Lemma paid_for_store (ai ai' : AI) (key : Grid * Color) (v : Z) (d : nat) :
  paid_for (tick ai) ai' → paid_for ai (store ai' key v d).
Proof.
  unfold paid_for, tick, store; simpl. rewrite map_size_insert.
  destruct (transposition_table ai' !! key); simpl; lia.
Qed.

Lemma alphabeta_loop_paid rec (g : Grid) (maximizing : bool)
    (moves : list Move) (alpha beta best : option Z) (ai : AI) :
  pays rec →
  paid_for ai (alphabeta_loop rec g maximizing moves alpha beta best ai).2.
Proof.
  intros Hrec. revert alpha beta best ai.
  induction moves as [|m rest IH]; intros alpha beta best ai;
    cbn [alphabeta_loop]; [apply paid_for_refl|].
  pose proof (Hrec (apply_move g m) (opponent (color m)) alpha beta ai)
    as Hchild.
  destruct (rec (apply_move g m) (opponent (color m)) alpha beta ai)
    as [v ai1]; cbn [snd] in Hchild.
  destruct maximizing.
  - destruct (cutoff _ _); [done|].
    eapply paid_for_trans; [exact Hchild | apply IH].
  - destruct (cutoff _ _); [done|].
    eapply paid_for_trans; [exact Hchild | apply IH].
Qed.

Lemma visit_paid rec (d : nat) (me : Color)
    (on_pass : option Z → option Z → AI → Z * AI)
    (g : Grid) (c : Color) (alpha beta : option Z) (ai : AI) :
  pays rec →
  (∀ a b' s, paid_for s (on_pass a b' s).2) →
  paid_for ai (visit P rec d me on_pass g c alpha beta ai).2.
Proof.
  intros Hrec Hpass. unfold visit.
  destruct (grid_over g); [apply paid_for_tick, paid_for_refl|].
  destruct (probe (tick ai) (g, c) d); [apply paid_for_tick, paid_for_refl|].
  destruct (grid_moves g c) as [|m rest].
  - pose proof (Hpass alpha beta (tick ai)) as Hp.
    destruct (on_pass alpha beta (tick ai)) as [v ai']; simpl in *.
    by apply paid_for_store.
  - pose proof (alphabeta_loop_paid rec g (bool_decide (c = me))
                  (order_moves (tick ai) g (m :: rest)) alpha beta None
                  (tick ai) Hrec) as Hloop.
    destruct (alphabeta_loop _ _ _ _ _ _ _ _) as [best ai']; simpl in *.
    by apply paid_for_store.
Qed.

Lemma search_paid (d : nat) (me : Color) : pays (search P d me).
Proof.
  induction d as [|d IH]; intros g c alpha beta ai.
  - simpl. apply paid_for_tick, paid_for_refl.
  - cbn [search]. apply visit_paid; [exact IH|].
    intros a b' s. apply visit_paid; [exact IH|].
    intros ? ? s'. apply paid_for_refl.
Qed.

Lemma score_moves_paid (d : nat) (me : Color) (g : Grid)
    (moves : list Move) (ai : AI) :
  paid_for ai (score_moves P d me g moves ai).2.
Proof.
  revert ai. induction moves as [|m rest IH]; intros ai; simpl;
    [apply paid_for_refl|].
  pose proof (search_paid d me (apply_move g m) (opponent me) None None ai)
    as Hchild.
  destruct (search P d me (apply_move g m) (opponent me) None None ai)
    as [v ai1]; simpl in Hchild.
  specialize (IH ai1).
  destruct (score_moves P d me g rest ai1) as [scored ai2]; simpl in *.
  by eapply paid_for_trans.
Qed.

Lemma choose_over_cap (ai : AI) (b : Board) (c : Color) :
  (table_cap P < base.size (transposition_table ai))%nat →
  choose P b c ai = choose P b c (cleared ai).
Proof.
  intros Hover. unfold choose, bind, get, put, ret, cleared; simpl.
  rewrite map_size_empty.
  destruct (Nat.ltb_spec (table_cap P)
              (base.size (transposition_table ai))); [|lia].
  by destruct (Nat.ltb_spec (table_cap P) 0); [lia|].
Qed.

Lemma choose_table_run (ai : AI) (b : Board) (c : Color) :
  ∃ r ai',
    choose P b c ai = (Return r, ai')
    ∧ (base.size (transposition_table ai')
       ≤ table_cap P + nodes_searched ai')%nat
    ∧ ((table_cap P < base.size (transposition_table ai))%nat →
       (base.size (transposition_table ai') ≤ nodes_searched ai')%nat).
Proof.
  unfold choose, bind, get, put, ret; simpl.
  set (ai0 := {| max_depth := max_depth ai; transposition_table := _;
                 nodes_searched := 0; rng := rng ai |}).
  assert (Hkept : (base.size (transposition_table ai0) ≤ table_cap P)%nat
                  ∧ ((table_cap P < base.size (transposition_table ai))%nat
                     → base.size (transposition_table ai0) = 0%nat)).
  { subst ai0; simpl.
    destruct (Nat.ltb_spec (table_cap P)
                (base.size (transposition_table ai))) as [Hover|Hfits].
    - rewrite map_size_empty. split; [lia | done].
    - split; [done | lia]. }
  destruct Hkept as [Hcap Hcleared].
  destruct (legal_moves b c) as [|m0 rest] eqn:Hmoves.
  { eexists None, ai0. split; [reflexivity|]. split; [lia|].
    intros Hover. rewrite (Hcleared Hover). simpl. lia. }
  set (ordered := order_moves ai0 (grid b) (m0 :: rest)).
  set (depth := adaptive_depth P _ _).
  pose proof (score_moves_paid (pred depth) c (grid b) ordered (tick ai0))
    as Hpaid.
  apply paid_for_tick in Hpaid.
  destruct (score_moves P (pred depth) c (grid b) ordered (tick ai0))
    as [scored ai1]; simpl in Hpaid.
  destruct (randrange P (rng ai1) _) as [i seed].
  eexists _, _. split; [reflexivity|]. simpl.
  destruct Hpaid as [_ Hpaid]. change (nodes_searched ai0) with 0%nat in Hpaid.
  split; [lia|]. intros Hover. specialize (Hcleared Hover). lia.
Qed.

(** The table across one call of [choose], in this model of the
    engine: a table holding more than the cap is cleared before the
    search, so the search starts from at most cap entries, and a call on
    an over-full table runs exactly as from an empty one.  What the call
    stores is bounded here by the nodes it searches: at most cap entries
    plus [nodes_searched] afterwards, and at most [nodes_searched] when
    the table was over the cap at the start.  Whether a call may store
    past the cap is a choice of this model; the design document does
    not settle it. *)
Lemma choose_table_bound (ai : AI) (b : Board) (c : Color) :
  ∃ r ai',
    choose P b c ai = (Return r, ai')
    ∧ (base.size (transposition_table ai')
       ≤ table_cap P + nodes_searched ai')%nat
    ∧ ((table_cap P < base.size (transposition_table ai))%nat →
       choose P b c ai = choose P b c (cleared ai)
       ∧ (base.size (transposition_table ai') ≤ nodes_searched ai')%nat).
Proof.
  destruct (choose_table_run ai b c) as (r & ai' & Hrun & Hcap & Hover).
  exists r, ai'. split; [exact Hrun|]. split; [exact Hcap|].
  intros Hfull. split; [by apply choose_over_cap | by apply Hover].
Qed.

End SearchFacts.

(** The opening position, searched four plies deep. *)
Lemma choose_legal_witness :
  ∃ r ai',
    Reversi.choose Reversi.default_policy opening Reversi.Black
      (Reversi.new_AI 4 7) = (Return r, ai')
    ∧ (∀ m, r = Some m → m ∈ Reversi.legal_moves opening Reversi.Black)
    ∧ (Reversi.legal_moves opening Reversi.Black ≠ [] →
       ∃ m, r = Some m ∧ m ∈ Reversi.legal_moves opening Reversi.Black)
    ∧ (r = None ↔ Reversi.legal_moves opening Reversi.Black = []).
Proof.
  apply (choose_legal Reversi.default_policy (Reversi.new_AI 4 7) opening
           Reversi.Black).
  split; [reflexivity|]. repeat constructor.
Defined.

(** In this model, with the cap configured to 2, a two-ply search of
    the opening position leaves four entries in a table that was empty,
    and four entries in a table that held three dummy entries. *)
Lemma table_over_cap_after_choose :
  let P := Reversi.policy_with_cap 2 in
  let after ai :=
    base.size (Reversi.transposition_table
                 (Reversi.choose P opening Reversi.Black ai).2) in
  Reversi.table_cap P = 2%nat
  ∧ (base.size (Reversi.transposition_table (Reversi.new_AI 2 7)) = 0%nat
     ∧ after (Reversi.new_AI 2 7) = 4%nat)
  ∧ (base.size (Reversi.transposition_table (stuffed_AI 2 7 3)) = 3%nat
     ∧ after (stuffed_AI 2 7 3) = 4%nat).
Proof. vm_compute. repeat split. Qed.

(** [test_transposition_table_cleared] in the model: with the default
    cap, and the evaluator and source of [default_policy], a four-ply
    search of the opening position from any over-full table (one holding
    15000 dummy entries, say) visits 200 nodes and leaves 62 entries. *)
Example opening_search_from_full_table (ai : Reversi.AI) :
  Reversi.max_depth ai = 4%nat →
  (Reversi.table_cap Reversi.default_policy
   < base.size (Reversi.transposition_table ai))%nat →
  let ai' := (Reversi.choose Reversi.default_policy opening Reversi.Black
                ai).2 in
  Reversi.nodes_searched ai' = 200%nat
  ∧ base.size (Reversi.transposition_table ai') = 62%nat.
Proof.
  intros Hdepth Hfull.
  rewrite (choose_over_cap Reversi.default_policy ai opening Reversi.Black
             Hfull).
  destruct ai as [depth table nodes seed]; simpl in Hdepth; subst depth.
  unfold cleared; simpl. vm_compute. done.
Qed.

(** [test_higher_depth_searches_more] in the model: with the evaluator of
    [default_policy], a fresh engine counts 5 nodes on the opening
    position at depth 1 and 65 at depth 3, and the counter of an earlier
    call does not carry over. *)
Example opening_nodes_searched (seed : N) (nodes : nat) :
  let count depth :=
    Reversi.nodes_searched
      (Reversi.choose Reversi.default_policy opening Reversi.Black
         (Reversi.mkAI depth ∅ nodes seed)).2 in
  count 1%nat = 5%nat ∧ count 3%nat = 65%nat.
Proof. vm_compute. done. Qed.

(** * More on the validators: diagnostics, composition, extra keys *)

Section Diagnostics.

#[local] Arguments py_in_ints : simpl never.
#[local] Arguments py_eq_int : simpl never.

Lemma cells_ok_value (cells : list PyVal) :
  Forall cell_ok cells ↔ Forall cell_value cells.
Proof. apply Forall_iff, cell_ok_value. Qed.

Lemma rows_ok_square (size : PyVal) (rows : list PyVal) :
  Forall (row_ok size) rows ↔ Forall (square_row size) rows.
Proof. apply Forall_iff, row_ok_square. Qed.

Lemma check_cells_some (i j0 : nat) (row : list PyVal) (m : LogMsg) :
  check_cells i j0 row = Some m →
  ∃ j cell,
    m = MsgInvalidCell i (j0 + j) cell
    ∧ Forall cell_ok (take j row)
    ∧ row !! j = Some cell ∧ ¬ cell_ok cell.
Proof.
  revert j0. induction row as [|c rest IH]; intros j0; simpl; [done|].
  destruct (py_in_ints c [0; 1; 2]) eqn:Hin; simpl.
  - intros (j & cell & -> & Hbefore & Hat & Hbad)%IH.
    exists (S j), cell. split; [f_equal; lia|]. split; [|by split].
    simpl. constructor; [by apply py_in_cells | done].
  - intros [= <-]. exists 0%nat, c. rewrite Nat.add_0_r.
    split; [done|]. split; [constructor|]. split; [done|].
    rewrite <- py_in_cells. congruence.
Qed.

Lemma check_rows_some (size : PyVal) (i0 : nat) (rows : list PyVal)
    (m : LogMsg) :
  check_rows size i0 rows = Some m →
  ∃ k row,
    Forall (row_ok size) (take k rows) ∧ rows !! k = Some row
    ∧ ((m = MsgRowNotList (i0 + k) ∧ ∀ cells, row ≠ PList cells)
       ∨ (∃ cells, row = PList cells
                   ∧ m = MsgRowLength (i0 + k) (length cells) size
                   ∧ ¬ is_number size (Z.of_nat (length cells)))
       ∨ (∃ cells j cell, row = PList cells
                          ∧ m = MsgInvalidCell (i0 + k) j cell
                          ∧ is_number size (Z.of_nat (length cells))
                          ∧ Forall cell_ok (take j cells)
                          ∧ cells !! j = Some cell ∧ ¬ cell_ok cell)).
Proof.
  revert i0. induction rows as [|row rest IH]; intros i0; simpl; [done|].
  destruct row as [| | | | |cells|];
    try (intros [= <-]; exists 0%nat; eexists; rewrite Nat.add_0_r;
         split; [constructor|]; split; [reflexivity|]; by left).
  destruct (py_eq_int size (Z.of_nat (length cells))) eqn:Hlen; simpl.
  - destruct (check_cells i0 0 cells) as [m'|] eqn:Hcells.
    + intros [= <-].
      apply check_cells_some in Hcells as (j & cell & -> & ? & ? & ?).
      exists 0%nat, (PList cells). rewrite Nat.add_0_r.
      split; [constructor|]. split; [reflexivity|].
      right; right. by exists cells, j, cell.
    + apply check_cells_none in Hcells.
      intros (k & row & Hbefore & Hat & Hcase)%IH.
      exists (S k), row. replace (i0 + S k)%nat with (S i0 + k)%nat by lia.
      split; [|by split].
      simpl. constructor; [by exists cells | done].
  - intros [= <-]. exists 0%nat, (PList cells). rewrite Nat.add_0_r.
    split; [constructor|]. split; [reflexivity|].
    right; left. exists cells. repeat split. unfold is_number. congruence.
Qed.

(** The scans stop at the first offending cell and at the first
    offending row. *)
Lemma check_cells_first (i j0 : nat) (row : list PyVal) (j : nat)
    (cell : PyVal) :
  Forall cell_ok (take j row) → row !! j = Some cell → ¬ cell_ok cell →
  check_cells i j0 row = Some (MsgInvalidCell i (j0 + j) cell).
Proof.
  revert j0 row. induction j as [|j IH]; intros j0 [|c rest]; simpl; try done.
  - intros _ [= ->] Hbad. rewrite <- py_in_cells in Hbad.
    destruct (py_in_ints cell [0; 1; 2]); [done|]. simpl.
    by rewrite Nat.add_0_r.
  - intros [Hc Hrest]%Forall_cons Hat Hbad.
    apply py_in_cells in Hc. rewrite Hc; simpl.
    rewrite (IH (S j0) rest) by done. do 2 f_equal. lia.
Qed.

Lemma check_rows_first (size : PyVal) (i0 : nat) (rows : list PyVal)
    (k : nat) (row : PyVal) (m : LogMsg) :
  Forall (row_ok size) (take k rows) → rows !! k = Some row →
  check_rows size (i0 + k) [row] = Some m →
  check_rows size i0 rows = Some m.
Proof.
  revert i0 rows. induction k as [|k IH]; intros i0 [|r rest] Hbefore Hat Hm;
    try done.
  - injection Hat as ->. rewrite Nat.add_0_r in Hm. revert Hm. simpl.
    destruct row as [| | | | |cells|]; try done.
    destruct (py_eq_int size (Z.of_nat (length cells))); simpl; [|done].
    by destruct (check_cells i0 0 cells).
  - simpl in Hbefore, Hat. apply Forall_cons in Hbefore as [Hr Hrest].
    destruct Hr as (cells & -> & Hlen & Hcells). simpl.
    unfold is_number in Hlen. rewrite Hlen; simpl.
    apply (check_cells_none i0 0) in Hcells. rewrite Hcells.
    apply (IH (S i0)); try done.
    by replace (S i0 + k)%nat with (i0 + S k)%nat by lia.
Qed.

(** A rejection logs one record, and the record names the first defect. *)
Lemma validate_save_file_names (data : gmap string PyVal) (log : Log) :
  ∃ b rest,
    validate_save_file data log = (Return b, log ++ rest)
    ∧ (b = true → rest = [])
    ∧ (b = false → ∃ m, rest = [mkLog ERROR m] ∧ first_defect data m).
Proof.
  unfold validate_save_file, required_fields; simpl.
  destruct (data !! "grid") as [grid|] eqn:Hgrid; simpl.
  2:{ eexists false, _; split; [reflexivity|]. split; [done|]. intros _.
      eexists; split; [reflexivity|]. split; [done|].
      exists [], ["size"; "to_move"]. by split. }
  destruct (data !! "size") as [size|] eqn:Hsize; simpl.
  2:{ eexists false, _; split; [reflexivity|]. split; [done|]. intros _.
      eexists; split; [reflexivity|]. split; [done|].
      exists ["grid"], ["to_move"]. split; [done|].
      repeat constructor. by rewrite Hgrid. }
  destruct (data !! "to_move") as [to_move|] eqn:Hmove; simpl.
  2:{ eexists false, _; split; [reflexivity|]. split; [done|]. intros _.
      eexists; split; [reflexivity|]. split; [done|].
      exists ["grid"; "size"], []. split; [done|].
      repeat constructor; [by rewrite Hgrid | by rewrite Hsize]. }
  destruct grid as [| | | | |rows|];
    try (eexists false, _; split; [reflexivity|]; split; [done|]; intros _;
         eexists; split; [reflexivity|];
         eexists _, size, to_move; by repeat split).
  destruct (py_eq_int size (Z.of_nat (length rows))) eqn:Hheight; simpl.
  2:{ eexists false, _; split; [reflexivity|]. split; [done|]. intros _.
      eexists; split; [reflexivity|].
      exists (PList rows), size, to_move. do 4 (split; [done|]).
      exists rows. do 2 (split; [done|]).
      rewrite <- is_number_denotes. unfold is_number. congruence. }
  assert (Hh : denotes size (Z.of_nat (length rows)))
    by by apply is_number_denotes.
  destruct (check_rows size 0 rows) as [m|] eqn:Hrows.
  { eexists false, _; split; [reflexivity|]. split; [done|]. intros _.
    exists m; split; [reflexivity|].
    apply check_rows_some in Hrows as (k & row & Hbefore & Hat & Hcase).
    simpl in Hcase. apply rows_ok_square in Hbefore.
    destruct Hcase as [[-> Hnl]|[(cells & -> & -> & Hl)
                                |(cells & j & cell & -> & -> & Hl & Hb & ? & Hbad)]];
      exists (PList rows), size, to_move; do 3 (split; [done|]).
    - by exists rows, row.
    - split; [done|]. exists rows, cells. do 5 (split; [done|]).
      by rewrite <- is_number_denotes.
    - exists rows, cells. do 4 (split; [done|]).
      split; [by apply is_number_denotes|].
      split; [by apply cells_ok_value|]. split; [done|].
      by rewrite <- cell_ok_value. }
  apply check_rows_none in Hrows.
  destruct (py_in_ints to_move [1; 2]) eqn:Hplayer; simpl.
  - exists true, []. rewrite app_nil_r. by repeat split.
  - eexists false, _; split; [reflexivity|]. split; [done|]. intros _.
    eexists; split; [reflexivity|].
    exists (PList rows), size, to_move. do 4 (split; [done|]).
    exists rows. do 2 (split; [done|]).
    split; [by apply rows_ok_square|].
    rewrite <- !is_number_denotes, <- py_in_players. congruence.
Qed.

(** A file with a first defect is rejected with the record of that
    defect. *)
Lemma validate_save_file_reports
    (data : gmap string PyVal) (log : Log) (m : LogMsg) :
  first_defect data m →
  validate_save_file data log = (Return false, log ++ [mkLog ERROR m]).
Proof.
  assert (Hmissing : ∀ field,
    data !! field = None →
    (∃ present rest,
        required_fields = present ++ field :: rest
        ∧ Forall (λ f, is_Some (data !! f)) present) →
    validate_save_file data log
    = (Return false, log ++ [mkLog ERROR (MsgMissingField field)])).
  { intros field Hnone (present & rest & Heq & Hall).
    unfold validate_save_file. rewrite Heq. clear Heq.
    induction Hall as [|f present [v Hf] _ IH]; simpl.
    - by rewrite Hnone.
    - by rewrite Hf. }
  destruct m as [?|? ? ?|?|field| |height size'|i|i len size'|i j cell
                |to_move'|?|? ? ?|? ? ?|? ?];
    simpl; try (by intros (? & ? & ? & _ & _ & _ & [])).
  all: try (intros [Hnone Hex]; by apply Hmissing).
  all: intros (grid & size & to_move & Hg & Hs & Ht & H);
    unfold validate_save_file, required_fields; simpl;
    rewrite Hg, Hs, Ht; simpl.
  - destruct grid as [| | | | |rows|]; try reflexivity. by destruct (H rows).
  - destruct H as (-> & rows & -> & -> & Hn).
    rewrite <- is_number_denotes in Hn. unfold is_number in Hn.
    by destruct (py_eq_int size (Z.of_nat (length rows))).
  - destruct H as (rows & row & -> & Hh & Hbefore & Hat & Hnl).
    apply is_number_denotes in Hh. unfold is_number in Hh. rewrite Hh; simpl.
    rewrite (check_rows_first size 0 rows i row (MsgRowNotList i));
      [reflexivity | by apply rows_ok_square | done |].
    simpl. destruct row as [| | | | |cells|]; try done. by destruct (Hnl cells).
  - destruct H as (-> & rows & cells & -> & Hh & Hbefore & Hat & -> & Hn).
    apply is_number_denotes in Hh. unfold is_number in Hh. rewrite Hh; simpl.
    rewrite (check_rows_first size 0 rows i (PList cells)
               (MsgRowLength i (length cells) size));
      [reflexivity | by apply rows_ok_square | done |].
    simpl. rewrite <- is_number_denotes in Hn. unfold is_number in Hn.
    by destruct (py_eq_int size (Z.of_nat (length cells))).
  - destruct H as (rows & cells & -> & Hh & Hbefore & Hat & Hl & Hb & Hc & Hbad).
    apply is_number_denotes in Hh. unfold is_number in Hh. rewrite Hh; simpl.
    rewrite (check_rows_first size 0 rows i (PList cells)
               (MsgInvalidCell i j cell));
      [reflexivity | by apply rows_ok_square | done |].
    simpl. apply is_number_denotes in Hl. unfold is_number in Hl.
    rewrite Hl; simpl.
    rewrite (check_cells_first i 0 cells j cell);
      [done | by apply cells_ok_value | done | by rewrite cell_ok_value].
  - destruct H as (-> & rows & -> & Hh & Hrows & Hp).
    apply is_number_denotes in Hh. unfold is_number in Hh. rewrite Hh; simpl.
    apply rows_ok_square, (check_rows_none size 0) in Hrows. rewrite Hrows.
    rewrite <- !is_number_denotes, <- py_in_players in Hp.
    by destruct (py_in_ints to_move [1; 2]).
Qed.

(** X3: Every rejection by [validate_save_file] logs exactly one ERROR
    record, and that record names the first defect of the data in the
    order of the checks: every check before it passes, and no other
    record names a first defect of the same data.  An acceptance logs
    nothing, and the data then has no defect at all. *)
Theorem validate_save_file_diagnosis (data : gmap string PyVal) (log : Log) :
  ∃ b rest,
    validate_save_file data log = (Return b, log ++ rest)
    ∧ (b = true → rest = [] ∧ ∀ m, ¬ first_defect data m)
    ∧ (b = false →
       ∃ m, rest = [mkLog ERROR m]
            ∧ first_defect data m
            ∧ ∀ m', first_defect data m' → m' = m).
Proof.
  destruct (validate_save_file_names data log)
    as (b & rest & Hrun & Hquiet & Hnamed).
  exists b, rest. split; [exact Hrun|]. split.
  - intros ->. split; [by apply Hquiet|].
    intros m Hm. apply (validate_save_file_reports data log) in Hm.
    congruence.
  - intros ->. destruct (Hnamed eq_refl) as (m & -> & Hm).
    exists m. split; [done|]. split; [done|].
    intros m' Hm'. apply (validate_save_file_reports data log) in Hm'.
    rewrite Hrun in Hm'. injection Hm' as Heq.
    apply app_inv_head in Heq. congruence.
Qed.

(** X2: Keys other than the three required ones (a ["version"], say) play
    no part in validation. *)
Theorem validate_save_file_extra_key
    (data : gmap string PyVal) (key : string) (v : PyVal) (log : Log) :
  key ∉ required_fields →
  validate_save_file (<[key := v]> data) log = validate_save_file data log.
Proof.
  unfold required_fields. rewrite !not_elem_of_cons.
  intros (Hg & Hs & Hm & _).
  unfold validate_save_file, required_fields; simpl.
  by rewrite !lookup_insert_ne.
Qed.

Lemma validate_save_file_extra_key_witness :
  validate_save_file (<["version" := PStr "2.0"]> save_4x4) []
  = validate_save_file save_4x4 [].
Proof.
  apply (validate_save_file_extra_key save_4x4 "version" (PStr "2.0") []).
  apply (bool_decide_unpack _). vm_compute. exact I.
Defined.

Lemma supported_size_listed (n : Z) :
  supported_size n ↔ n ∈ VALID_BOARD_SIZES game_config.
Proof.
  unfold supported_size; simpl. rewrite !elem_of_cons. split.
  - intros [Hr He].
    assert (Hn : n ∈ seqZ 4 13) by (apply elem_of_seqZ; lia).
    vm_compute seqZ in Hn. rewrite !elem_of_cons in Hn.
    destruct Hn as [->|[->|[->|[->|[->|[->|[->|[->|[->|[->|[->|[->|[->|Hn]]]]]]]]]]]]];
      [..|by apply elem_of_nil in Hn]; first [discriminate He | tauto].
  - intros [->|[->|[->|[->|[->|[->|[->|Hn]]]]]]];
      [..|by apply elem_of_nil in Hn]; split; first [lia | reflexivity].
Qed.

Lemma validate_board_size_accepts (size : PyVal) (log log' : Log) :
  validate_board_size size log = (Return true, log') →
  ∃ n, size = PInt n ∧ supported_size n ∧ log' = log.
Proof.
  unfold validate_board_size, supported_size.
  destruct size as [|b|n|f|s|l|d]; simpl; try discriminate.
  - destruct b; simpl; discriminate.
  - destruct (Z.ltb_spec n 4); simpl; [discriminate|].
    destruct (Z.gtb_spec n 16); simpl; [discriminate|].
    destruct (n `mod` 2 =? 0) eqn:Hpar; simpl; [|discriminate].
    intros [= <-]. exists n. split; [done|]. split; [|done].
    split; [lia|]. apply Z.eqb_eq in Hpar. rewrite Zmod_even in Hpar.
    by destruct (Z.even n).
Qed.

(** X4: A file that passes [validate_save_file] and whose size passes
    [validate_board_size] carries an integer size [n] out of 4, 6, ...,
    16 and a grid of exactly [n] rows of [n] cells, [n * n] cells in all,
    each of them 0, 1 or 2; neither validator has logged anything. *)
Theorem validated_save_is_square
    (data : gmap string PyVal) (size : PyVal) (log log1 log2 : Log) :
  data !! "size" = Some size →
  validate_save_file data log = (Return true, log1) →
  validate_board_size size log1 = (Return true, log2) →
  ∃ (n : Z) (rows : list (list PyVal)),
    size = PInt n ∧ n ∈ VALID_BOARD_SIZES game_config
    ∧ data !! "grid" = Some (PList (PList <$> rows))
    ∧ Z.of_nat (length rows) = n
    ∧ Forall (λ cells, Z.of_nat (length cells) = n ∧ Forall cell_ok cells) rows
    ∧ Z.of_nat (length (concat rows)) = n * n
    ∧ log2 = log.
Proof.
  intros Hsize Hfile Hboard.
  destruct (validate_save_file_run data log) as (b & rest & Hrun & Hquiet & Hok).
  rewrite Hrun in Hfile. injection Hfile as -> <-.
  rewrite (Hquiet eq_refl), app_nil_r in Hboard.
  apply validate_board_size_accepts in Hboard as (n & -> & Hn & ->).
  apply supported_size_listed in Hn.
  destruct Hok as [Hok _].
  destruct (Hok eq_refl)
    as (rows & size' & to_move & Hgrid & Hs & _ & Hheight & Hrows & _).
  rewrite Hsize in Hs. injection Hs as <-.
  apply is_number_int in Hheight.
  assert (Hshape : ∃ rows' : list (list PyVal),
             rows = PList <$> rows'
             ∧ Forall (λ cells, Z.of_nat (length cells) = n
                                ∧ Forall cell_ok cells) rows').
  { clear Hgrid Hheight. induction Hrows as [|row rest0 Hrow _ IH].
    - by exists [].
    - destruct IH as (rows' & -> & Hall).
      destruct Hrow as (cells & -> & Hlen & Hcells).
      exists (cells :: rows'). split; [done|].
      constructor; [|done]. split; [|done]. by apply is_number_int in Hlen. }
  destruct Hshape as (rows' & -> & Hall).
  rewrite length_fmap in Hheight.
  exists n, rows'. split; [done|]. split; [done|]. split; [done|].
  split; [lia|]. split; [done|]. split; [|done].
  assert (Hcount : ∀ l : list (list PyVal),
             Forall (λ cells, Z.of_nat (length cells) = n
                              ∧ Forall cell_ok cells) l →
             Z.of_nat (length (concat l)) = Z.of_nat (length l) * n).
  { induction 1 as [|cells rest0 [Hlen _] _ IH]; simpl; [lia|].
    rewrite length_app. lia. }
  rewrite (Hcount rows' Hall). lia.
Qed.

Lemma validated_save_is_square_witness :
  ∃ (n : Z) (rows : list (list PyVal)),
    PInt 4 = PInt n ∧ n ∈ VALID_BOARD_SIZES game_config
    ∧ save_4x4 !! "grid" = Some (PList (PList <$> rows))
    ∧ Z.of_nat (length rows) = n
    ∧ Forall (λ cells, Z.of_nat (length cells) = n ∧ Forall cell_ok cells) rows
    ∧ Z.of_nat (length (concat rows)) = n * n
    ∧ @nil LogRecord = [].
Proof.
  apply (validated_save_is_square save_4x4 (PInt 4) [] [] []);
    vm_compute; reflexivity.
Defined.

End Diagnostics.

Section MoreValidators.

(** X1: [validate_ai_depth] never raises; it returns [True] exactly for an
    integer from 1 to 6 and for [True] itself (a [bool] is an [int], and
    [True] is 1); it logs one WARNING when it rejects and nothing when it
    accepts. *)
Theorem validate_ai_depth_spec (depth : PyVal) (log : Log) :
  ∃ b rest,
    validate_ai_depth depth log = (Return b, log ++ rest)
    ∧ (b = true ↔ (∃ n, depth = PInt n ∧ 1 ≤ n ≤ 6) ∨ depth = PBool true)
    ∧ (b = true → rest = [])
    ∧ (b = false → ∃ m, rest = [mkLog WARNING m]).
Proof.
  assert (Hno : ∀ rest,
    (∀ n, depth ≠ PInt n ∨ ¬ 1 ≤ n ≤ 6) → depth ≠ PBool true →
    (∃ m, rest = [mkLog WARNING m]) →
    (false = true ↔ (∃ n, depth = PInt n ∧ 1 ≤ n ≤ 6) ∨ depth = PBool true)
    ∧ (false = true → rest = [])
    ∧ (false = false → ∃ m, rest = [mkLog WARNING m])).
  { intros rest Hint Hbool Hrest. split; [|by split].
    split; [done|]. intros [(n & -> & Hn) | ->]; [|done].
    destruct (Hint n) as [?|?]; done. }
  unfold validate_ai_depth.
  destruct depth as [|b|n|f|s|l|d]; simpl;
    try (eexists false, _; split; [reflexivity|]; apply Hno;
         [by left | done | by eexists]).
  - destruct b; simpl.
    + exists true, []. rewrite app_nil_r. split; [done|].
      split; [|by split]. split; [by right | done].
    + eexists false, _. split; [reflexivity|]. apply Hno;
        [by left | done | by eexists].
  - destruct (Z.ltb_spec n 1); simpl;
      [eexists false, _; split; [reflexivity|]; apply Hno;
       [intros n0; destruct (decide (n0 = n)) as [->|];
        [right; lia | left; congruence] | done | by eexists]|].
    destruct (Z.gtb_spec n 6); simpl;
      [eexists false, _; split; [reflexivity|]; apply Hno;
       [intros n0; destruct (decide (n0 = n)) as [->|];
        [right; lia | left; congruence] | done | by eexists]|].
    exists true, []. rewrite app_nil_r. split; [done|].
    split; [|by split]. split; [|done]. intros _. left. exists n.
    split; [done | lia].
Qed.

(** X5: [validate_board_size] logs nothing when it accepts and exactly one
    WARNING when it rejects, and the warning names the first check that
    fails: not an integer, then out of [4, 16] (whatever the parity),
    then odd. *)
Theorem validate_board_size_diagnosis (size : PyVal) (log : Log) :
  ∃ b rest,
    validate_board_size size log = (Return b, log ++ rest)
    ∧ (b = true → rest = [])
    ∧ (b = false → ∃ m, rest = [mkLog WARNING m] ∧ explains_size size m).
Proof.
  unfold validate_board_size.
  destruct (as_int size) as [n|] eqn:Hint; simpl.
  2:{ eexists false, _. split; [reflexivity|]. split; [done|]. intros _.
      eexists. split; [reflexivity|]. by split. }
  destruct (Z.ltb_spec n 4); simpl.
  { eexists false, _. split; [reflexivity|]. split; [done|]. intros _.
    eexists. split; [reflexivity|]. simpl. repeat split; [done|lia]. }
  destruct (Z.gtb_spec n 16); simpl.
  { eexists false, _. split; [reflexivity|]. split; [done|]. intros _.
    eexists. split; [reflexivity|]. simpl. repeat split; [done|lia]. }
  destruct (n `mod` 2 =? 0) eqn:Hpar; simpl.
  - exists true, []. rewrite app_nil_r. by repeat split.
  - eexists false, _. split; [reflexivity|]. split; [done|]. intros _.
    eexists. split; [reflexivity|]. simpl. split; [done|]. split; [lia|].
    apply Z.eqb_neq in Hpar. rewrite Zmod_even in Hpar.
    rewrite <- Z.negb_even. by destruct (Z.even n).
Qed.

End MoreValidators.

(** * More on the wrappers *)

Section MoreWrappers.

(** X6: With the default [error_msg] the handler of [safe_execute] reads
    [func.__name__]: for a callable without that attribute a failure of
    the call surfaces as [AttributeError] and nothing is logged.  With a
    message of its own, [safe_execute] logs it and returns the default
    for any callable. *)
Theorem safe_execute_nameless (func : Callable) (args : list PyVal)
    (d : PyVal) (e : Exc) (log log' : Log) :
  fn_name func = None →
  fn_call func args log = (Raise e, log') →
  isinstance_exc e Exception = true →
  (∃ e', safe_execute func args d "" log = (Raise e', log')
         ∧ exc_class e' = AttributeError)
  ∧ ∀ msg, msg ≠ "" →
      safe_execute func args d msg log
      = (Return d, log' ++ [mkLog ERROR (MsgExecError msg e)]).
Proof.
  intros Hname Hcall Hexc.
  unfold safe_execute, try_except, dispatch. rewrite Hcall, Hexc.
  unfold getattr_name. rewrite Hname. split.
  - eexists. split; [reflexivity | done].
  - intros msg Hmsg. unfold bind, ret, logger_error, emit.
    by rewrite bool_decide_false.
Qed.

Lemma safe_execute_nameless_witness :
  (∃ e', safe_execute nameless [] (PInt 7) "" [] = (Raise e', [])
         ∧ exc_class e' = AttributeError)
  ∧ ∀ msg, msg ≠ "" →
      safe_execute nameless [] (PInt 7) msg []
      = (Return (PInt 7),
         [] ++ [mkLog ERROR (MsgExecError msg (mkExc OSError "disk"))]).
Proof.
  apply (safe_execute_nameless nameless [] (PInt 7) (mkExc OSError "disk")
           [] []); reflexivity.
Defined.

(** X7: A decorated function has nothing left for a second wrapper to catch:
    decorating it again with [handle_file_errors], or calling it through
    [safe_execute], gives exactly what calling it gives; the outer
    default is never returned and no second record is logged. *)
Theorem wrappers_compose (func : Callable) (args : list PyVal)
    (r1 r2 d : PyVal) (m1 m2 error_msg : string) (log : Log) :
  fn_call (handle_file_errors r1 m1 (handle_file_errors r2 m2 func)) args log
  = fn_call (handle_file_errors r2 m2 func) args log
  ∧ safe_execute (handle_file_errors r2 m2 func) args d error_msg log
    = fn_call (handle_file_errors r2 m2 func) args log.
Proof.
  unfold safe_execute.
  cbn [handle_file_errors fn_call]. unfold try_except.
  destruct (fn_call func args log) as [[v|e] log'] eqn:Hcall; [done|].
  destruct e as [cls text]. destruct cls; split; reflexivity.
Qed.

End MoreWrappers.

(** * Properties of [logger.py] *)

Section LoggerFacts.
Import Logger.

Lemma permission_is_os (e : Exc) :
  isinstance_exc e PermissionError = true → isinstance_exc e OSError = true.
Proof. destruct e as [[] ?]; vm_compute; congruence. Qed.

Lemma lookup_logger_run (name : string) (w : Logging) :
  lookup_logger name w = (Return (the_logger name w), registered name w).
Proof.
  unfold lookup_logger, the_logger, registered, bind, get; simpl.
  by destruct (loggers w !! name).
Qed.

(** Once logging is initialized, [get_logger] is the lookup, at every
    depth. *)
Lemma get_logger_initialized (k : nat) (name : string) (w : Logging) :
  initialized w = true →
  get_logger_upto (S k) name w
  = (Return (the_logger name w), registered name w).
Proof.
  intros Hinit. cbn [get_logger_upto]. unfold bind at 1, get; simpl.
  rewrite Hinit; simpl. unfold bind, ret; simpl. apply lookup_logger_run.
Qed.

(** What one run of [setup_logging] does, whichever [get_logger] of depth
    at least one it is given. *)
Lemma get_DEBUG (w : Logging) : getattr_logging "DEBUG" w = (Return 10, w).
Proof. reflexivity. Qed.

#[local] Arguments str_repeat : simpl never.
#[local] Arguments get_logger_upto : simpl never.
#[local] Arguments getattr_logging : simpl never.
#[local] Arguments lookup_logger : simpl never.

Lemma setup_logging_run (k : nat) (debug : bool) (log_file : option string)
    (w : Logging) :
  setup_logging_upto (S k) debug log_file w
  = if initialized w then (Return (), w)
    else
      let path := default "reversi.log" log_file in
      match disk w path with
      | None => (Return (), set_up w debug (Some (file_handler path)) [])
      | Some e =>
          if isinstance_exc e OSError
          then (Return (), set_up w debug None [e])
          else (Raise e, w)
      end.
Proof.
  unfold setup_logging_upto, setup_logging_with, try_except, open_log_file.
  destruct w as [ini lg rl rh jl se cl dk].
  unfold bind, get, ret, raise; simpl.
  destruct ini; [done|].
  set (path := default "reversi.log" log_file).
  assert (Hlevel : ∀ w', (if debug then (λ s, (Return logging_DEBUG, s))
                          else getattr_logging "INFO") w'
                         = (Return (if debug then 10 else 20), w'))
    by (intros w'; by destruct debug).
  rewrite Hlevel.
  destruct (dk path) as [e|] eqn:Hdisk; simpl; rewrite ?Hdisk; simpl.
  - destruct (isinstance_exc e OSError) eqn:Hos; simpl.
    + rewrite get_logger_initialized by done.
      unfold set_up, registered, the_logger, log_to.
      destruct (lg !! "GameLogger") eqn:Hgl; simpl; rewrite ?Hgl; simpl;
        rewrite <- ?app_assoc; by destruct debug.
    + destruct (isinstance_exc e PermissionError) eqn:Hperm; [|done].
      apply permission_is_os in Hperm. congruence.
  - rewrite get_DEBUG; simpl. rewrite get_logger_initialized by done.
    unfold set_up, registered, the_logger, log_to, file_handler.
    destruct (lg !! "GameLogger") eqn:Hgl; simpl; rewrite ?Hgl; simpl;
      rewrite <- ?app_assoc, ?app_nil_r; by destruct debug.
Qed.

Lemma get_logger_run (k : nat) (name : string) (w : Logging) :
  get_logger_upto (S (S k)) name w
  = match setup_logging_upto (S k) false None w with
    | (Return _, w') => (Return (the_logger name w'), registered name w')
    | (Raise e, w') => (Raise e, w')
    end.
Proof.
  rewrite setup_logging_run.
  destruct (initialized w) eqn:Hinit;
    [by rewrite get_logger_initialized|].
  change (get_logger_upto (S (S k)) name w)
    with ((w0 <- get ;;
           (if negb (initialized w0)
            then setup_logging_upto (S k) false None else ret ()) ;;
           lookup_logger name) w).
  unfold bind at 1, get. cbv beta iota. rewrite Hinit. cbn [negb].
  unfold bind at 1. rewrite setup_logging_run, Hinit.
  cbv beta zeta. cbn [default].
  destruct (disk w "reversi.log") as [e|];
    [destruct (isinstance_exc e OSError)|];
    cbv beta iota; try apply lookup_logger_run; done.
Qed.

Lemma registered_settled (name : string) (w : Logging) :
  initialized w = true → settled w → settled (registered name w).
Proof.
  intros Hinit [Hnames Hstate]. rewrite Hinit in Hstate.
  unfold registered. destruct (loggers w !! name) eqn:Hname;
    [split; [done | by rewrite Hinit]|].
  split; simpl.
  - intros name' l. rewrite lookup_insert.
    case_decide as Heq; [by intros [= <-]; subst | apply Hnames].
  - rewrite Hinit.
    destruct Hstate as (debug & file & ? & ? & ? & Hgl & ?).
    exists debug, file. repeat split; try done.
    rewrite lookup_insert. case_decide; [by eexists | done].
Qed.

Lemma set_up_settled (w : Logging) (debug : bool) (file : option Handler)
    (warned : list Exc) :
  initialized w = false → settled w →
  (length warned + length (option_list file) = 1)%nat →
  settled (set_up w debug file warned).
Proof.
  intros Hinit [Hnames Hstate] Hone. rewrite Hinit in Hstate.
  destruct Hstate as (Hh & Hl & Hj & Hs & Hr).
  unfold set_up, registered, the_logger. rewrite Hl, Hh, Hj, Hs.
  rewrite lookup_empty. split; simpl.
  - intros name l. rewrite lookup_insert.
    case_decide; [by intros [= <-]; subst | by rewrite lookup_empty].
  - exists debug, file. repeat split; done.
Qed.

Lemma logger_call_settled (w w' : Logging) :
  logger_call w w' → settled w → settled w'.
Proof.
  intros Hcall Hw. destruct Hcall as [debug log_file w out w' Hrun
                                     |name w out w' Hrun|w disk'].
  - unfold setup_logging in Hrun. rewrite setup_logging_run in Hrun.
    destruct (initialized w) eqn:Hinit; [by injection Hrun as _ <-|].
    cbv zeta in Hrun.
    destruct (disk w _) as [e|];
      [destruct (isinstance_exc e OSError)|];
      injection Hrun as _ <-; try done; by apply set_up_settled.
  - unfold get_logger in Hrun. rewrite get_logger_run in Hrun.
    rewrite setup_logging_run in Hrun.
    destruct (initialized w) eqn:Hinit;
      [injection Hrun as _ <-; by apply registered_settled|].
    cbv zeta in Hrun. cbn [default] in Hrun.
    destruct (disk w _) as [e|];
      [destruct (isinstance_exc e OSError)|];
      injection Hrun as _ <-; try done;
      (apply registered_settled; [done | by apply set_up_settled]).
  - destruct Hw as [Hnames Hstate]. by split.
Qed.

(** X8: Whatever sequence of [setup_logging] and [get_logger] calls a
    program makes, with the disk changing in between as it may, the root
    logger never gets more than its console handler and one file
    handler, the four opening records are logged once, and every
    registered logger is the one [logging] keeps under that name. *)
Theorem logging_stays_settled (disk0 : string → option Exc) (w : Logging) :
  rtc logger_call (boot disk0) w →
  settled w
  ∧ (length (root_handlers w) ≤ 2)%nat
  ∧ (length (journal w) = if initialized w then 4 else 0)%nat.
Proof.
  intros Hreach.
  assert (Hw : settled w).
  { apply (rtc_ind_r (R := logger_call) (λ w0, settled w0) (boot disk0));
      [by split| |done].
    intros w1 w2 _ Hcall Hw1. by eapply logger_call_settled. }
  split; [done|]. destruct Hw as [_ Hstate].
  destruct (initialized w).
  - destruct Hstate as (debug & file & -> & _ & -> & _).
    split; [destruct file; simpl; lia | reflexivity].
  - destruct Hstate as (-> & _ & -> & _). split; [simpl; lia | done].
Qed.

(** Two loggers asked for from a fresh process whose log file cannot be
    opened. *)
Lemma logging_stays_settled_witness :
  let disk0 := λ _ : string, Some (mkExc PermissionError "reversi.log") in
  let w := (get_logger "ai" (get_logger "board" (boot disk0)).2).2 in
  settled w
  ∧ (length (root_handlers w) ≤ 2)%nat
  ∧ (length (journal w) = if initialized w then 4 else 0)%nat.
Proof.
  intros disk0 w. apply (logging_stays_settled disk0 w).
  eapply rtc_l;
    [eapply (call_get_logger "board"); apply surjective_pairing|].
  eapply rtc_l;
    [eapply (call_get_logger "ai"); apply surjective_pairing|].
  apply rtc_refl.
Defined.

(** X9: [setup_logging] on an initialized system changes nothing.  On a
    fresh one it always ends initialized unless opening the log file
    fails with something other than an [OSError]: with the file it adds
    the console and the file handler; when the file cannot be opened
    ([OSError], [PermissionError], ...) it prints the warning and goes on
    with the console handler alone; any other exception leaves the
    system untouched, so that a later call starts over. *)
Theorem setup_logging_outcome (debug : bool) (log_file : option string)
    (w : Logging) :
  setup_logging debug log_file w
  = if initialized w then (Return (), w)
    else
      let path := default (LOG_FILE file_config) log_file in
      match disk w path with
      | None => (Return (), set_up w debug (Some (file_handler path)) [])
      | Some e =>
          if isinstance_exc e OSError
          then (Return (), set_up w debug None [e])
          else (Raise e, w)
      end.
Proof. apply setup_logging_run. Qed.

(** X10: [get_logger] and [setup_logging] call each other, but never more
    than two calls deep.  When [get_logger(name)] returns, logging is
    initialized, the logger is registered under [name], and asking again
    gives the same logger and changes nothing. *)
Theorem get_logger_cached (name : string) (w w1 : Logging) (l : PyLogger) :
  get_logger name w = (Return l, w1) →
  initialized w1 = true
  ∧ loggers w1 !! name = Some l
  ∧ get_logger name w1 = (Return l, w1)
  ∧ ∀ k, get_logger_upto (2 + k) name w = (Return l, w1).
Proof.
  intros Hrun.
  assert (Hreg : ∀ w0, loggers (registered name w0) !! name
                       = Some (the_logger name w0)).
  { intros w0. unfold registered, the_logger.
    destruct (loggers w0 !! name) eqn:Hn; simpl; [done|].
    by rewrite lookup_insert_eq. }
  assert (Hini : ∀ w0, initialized (registered name w0) = initialized w0).
  { intros w0. unfold registered. by destruct (loggers w0 !! name). }
  assert (Hagain : ∀ w0, initialized w0 = true →
            get_logger name (registered name w0)
            = (Return (the_logger name w0), registered name w0)).
  { intros w0 Hinit. unfold get_logger.
    rewrite get_logger_initialized by (by rewrite Hini).
    unfold the_logger at 1. rewrite Hreg. simpl.
    unfold registered at 1. by rewrite Hreg. }
  assert (Hdepth : ∀ k, get_logger_upto (2 + k) name w = get_logger name w).
  { intros k. unfold get_logger. cbn [Nat.add].
    rewrite !get_logger_run, !setup_logging_run. done. }
  split; [|split; [|split]]; [..|by intros k; rewrite Hdepth].
  all: unfold get_logger in Hrun; rewrite get_logger_run in Hrun;
    rewrite setup_logging_run in Hrun;
    destruct (initialized w) eqn:Hinit;
    [injection Hrun as <- <-
    |cbv zeta in Hrun; cbn [default] in Hrun;
     destruct (disk w _) as [e|];
     [destruct (isinstance_exc e OSError)|];
     try discriminate; injection Hrun as <- <-].
  all: first [ by rewrite Hini | by apply Hreg | by apply Hagain ].
Qed.

Lemma get_logger_cached_witness :
  let w := boot (λ _, None) in
  let l := getLogger "board" in
  let w1 := registered "board" (set_up w false
              (Some (file_handler "reversi.log")) []) in
  initialized w1 = true
  ∧ loggers w1 !! "board" = Some l
  ∧ get_logger "board" w1 = (Return l, w1)
  ∧ ∀ k, get_logger_upto (2 + k) "board" w = (Return l, w1).
Proof.
  intros w l w1. apply (get_logger_cached "board" w w1 l).
  vm_compute. reflexivity.
Defined.

End LoggerFacts.

(** * Properties of the context managers and decorators *)

Section ContextFacts.
Import Logger.

#[local] Arguments get_logger_upto : simpl never.
#[local] Arguments lookup_logger : simpl never.

Lemma get_logger_ready (name : string) (w : Logging) :
  initialized w = true →
  get_logger name w = (Return (the_logger name w), registered name w).
Proof. apply get_logger_initialized. Qed.

Lemma with_ErrorContext_outcome_eq {A : Type} (op : string) (rr : bool)
    (body : StErr Logging A) (w : Logging) :
  initialized w = true →
  with_ErrorContext op rr body w
  = match body (logged (registered "ErrorContext" w)
                  (mkLine (logger_name (the_logger "ErrorContext" w)) DEBUG
                     (TxtStarting op) false)) with
    | (Return a, w') =>
        (Return (Some a),
         logged w' (mkLine (logger_name (the_logger "ErrorContext" w)) DEBUG
                      (TxtCompleted op) false))
    | (Raise e, w') =>
        (if rr then Raise e else Return None,
         logged w' (mkLine (logger_name (the_logger "ErrorContext" w)) ERROR
                      (TxtFailed op e) true))
    end.
Proof.
  intros Hinit.
  unfold with_ErrorContext, with_statement, ErrorContext_init.
  unfold bind at 1. unfold bind at 1. rewrite get_logger_ready by done.
  cbv beta iota. unfold ret at 1. cbv beta iota.
  unfold bind at 1, ErrorContext_enter. unfold bind at 1, log_to at 1.
  cbv beta iota. unfold ret at 1. cbv beta iota.
  cbn [ec_logger operation reraise]. unfold logged.
  match goal with
  | |- context [body ?st] => destruct (body st) as [[a|e] w']
  end; unfold ErrorContext_exit, bind, log_to, ret, raise, logged;
    cbn [ec_logger operation reraise]; [done|].
  by destruct rr.
Qed.

(** X11: [with ErrorContext(operation, reraise): body], once logging is set
    up: the block logs "Starting", runs the body, and logs "Completed" or
    "Failed".  With [reraise=False] no exception of the body leaves the
    block, whatever its class, [SystemExit] and [KeyboardInterrupt]
    included; with [reraise=True] every exception leaves it unchanged. *)
Theorem with_ErrorContext_outcome {A : Type} (op : string) (rr : bool)
    (body : StErr Logging A) (w : Logging) :
  initialized w = true →
  let name := logger_name (the_logger "ErrorContext" w) in
  let entered :=
    logged (registered "ErrorContext" w)
      (mkLine name DEBUG (TxtStarting op) false) in
  with_ErrorContext op rr body w
  = match body entered with
    | (Return a, w') =>
        (Return (Some a),
         logged w' (mkLine name DEBUG (TxtCompleted op) false))
    | (Raise e, w') =>
        (if rr then Raise e else Return None,
         logged w' (mkLine name ERROR (TxtFailed op e) true))
    end.
Proof.
  intros Hinit name entered. by apply with_ErrorContext_outcome_eq.
Qed.

Lemma with_ErrorContext_outcome_witness :
  let name := logger_name (the_logger "ErrorContext" running) in
  let entered :=
    logged (registered "ErrorContext" running)
      (mkLine name DEBUG (TxtStarting "load") false) in
  with_ErrorContext "load" false quits running
  = match quits entered with
    | (Return a, w') =>
        (Return (Some a),
         logged w' (mkLine name DEBUG (TxtCompleted "load") false))
    | (Raise e, w') =>
        (if false then Raise e else Return None,
         logged w' (mkLine name ERROR (TxtFailed "load" e) true))
    end.
Proof.
  apply (with_ErrorContext_outcome "load" false quits running).
  vm_compute. reflexivity.
Defined.

(** X12: [with log_exceptions(logger, message): body] never swallows: the
    block ends as the body ends, with one ERROR record more when the body
    raised.  Inside an [ErrorContext] that does not re-raise, both
    records are logged, the inner one first, and nothing is raised. *)
Theorem with_log_exceptions_outcome {A : Type} (logger : PyLogger)
    (message op : string) (body : StErr Logging A) (w : Logging) :
  with_log_exceptions logger message body w
  = match body w with
    | (Return a, w') => (Return (Some a), w')
    | (Raise e, w') =>
        (Raise e,
         logged w' (mkLine (logger_name logger) ERROR
                      (TxtException message e) true))
    end
  ∧ (initialized w = true →
     let name := logger_name (the_logger "ErrorContext" w) in
     let entered :=
       logged (registered "ErrorContext" w)
         (mkLine name DEBUG (TxtStarting op) false) in
     with_ErrorContext op false (with_log_exceptions logger message body) w
     = match body entered with
       | (Return a, w') =>
           (Return (Some (Some a)),
            logged w' (mkLine name DEBUG (TxtCompleted op) false))
       | (Raise e, w') =>
           (Return None,
            logged
              (logged w' (mkLine (logger_name logger) ERROR
                            (TxtException message e) true))
              (mkLine name ERROR (TxtFailed op e) true))
       end).
Proof.
  assert (Hinner : ∀ w0,
    with_log_exceptions logger message body w0
    = match body w0 with
      | (Return a, w') => (Return (Some a), w')
      | (Raise e, w') =>
          (Raise e,
           logged w' (mkLine (logger_name logger) ERROR
                        (TxtException message e) true))
      end).
  { intros w0. unfold with_log_exceptions, with_statement,
      log_exceptions_enter, log_exceptions_exit, bind, ret, raise, log_to,
      logged; simpl.
    by destruct (body w0) as [[a|e] w']. }
  split; [apply Hinner|].
  intros Hinit name entered.
  rewrite with_ErrorContext_outcome_eq by done.
  fold name. fold entered. rewrite Hinner.
  by destruct (body entered) as [[a|e] w'].
Qed.

(** X13: A function decorated with [log_performance] behaves as the function
    does, once logging is set up and the function has its [__name__] and
    [__module__]: the same value is returned, the same exception raised.
    The clock is read before and after the call and one record is
    logged, DEBUG after a return and ERROR after an [Exception]; an
    exception outside [Exception] passes without a second reading and
    without a record. *)
Theorem log_performance_transparent (func : Function) (name module : string)
    (args : list PyVal) (w : Logging) :
  func_name func = Some name →
  func_module func = Some module →
  initialized w = true →
  let logger := logger_name (the_logger module w) in
  func_call (log_performance func) args w
  = match func_call func args (ticked (registered module w)) with
    | (Return v, w') =>
        (Return v,
         logged (ticked w')
           (mkLine logger DEBUG (TxtCompletedIn name (clock w) (clock w'))
              false))
    | (Raise e, w') =>
        if isinstance_exc e Exception then
          (Raise e,
           logged (ticked w')
             (mkLine logger ERROR
                (TxtFailedAfter name (clock w) (clock w') e) false))
        else (Raise e, w')
    end.
Proof.
  intros Hname Hmodule Hinit logger.
  assert (Hclock : clock (registered module w) = clock w).
  { unfold registered. by destruct (loggers w !! module). }
  cbn [log_performance func_call]. rewrite Hname, Hmodule.
  unfold getattr_or_raise. unfold bind at 1, ret at 1. cbv beta iota.
  unfold bind at 1. rewrite get_logger_ready by done. cbv beta iota.
  unfold bind at 1, time_time at 1. cbv beta iota.
  unfold try_except, dispatch. unfold bind at 1. unfold ticked.
  match goal with
  | |- context [func_call func args ?st] =>
      destruct (func_call func args st) as [[v|e] w']
  end.
  - by rewrite <- Hclock.
  - rewrite <- Hclock. destruct (isinstance_exc e Exception); reflexivity.
Qed.

Lemma log_performance_transparent_witness :
  let logger := logger_name (the_logger "game" running) in
  func_call (log_performance timed) [] running
  = match func_call timed [] (ticked (registered "game" running)) with
    | (Return v, w') =>
        (Return v,
         logged (ticked w')
           (mkLine logger DEBUG
              (TxtCompletedIn "timed" (clock running) (clock w')) false))
    | (Raise e, w') =>
        if isinstance_exc e Exception then
          (Raise e,
           logged (ticked w')
             (mkLine logger ERROR
                (TxtFailedAfter "timed" (clock running) (clock w') e) false))
        else (Raise e, w')
    end.
Proof.
  apply (log_performance_transparent timed "timed" "game" [] running);
    vm_compute; reflexivity.
Defined.

(** X14: Decorating a callable that has no [__name__] (an object with
    [__call__], say) breaks it: the call is made, but the message built
    after it fails, so that a return or an [Exception] of the callable
    becomes an [AttributeError], and nothing is logged. *)
Theorem log_performance_nameless (func : Function) (module : string)
    (args : list PyVal) (w : Logging) :
  func_name func = None →
  func_module func = Some module →
  initialized w = true →
  ∃ out w1,
    func_call (log_performance func) args w = (out, w1)
    ∧ match func_call func args (ticked (registered module w)) with
      | (Return v, w') =>
          (∃ e', out = Raise e' ∧ exc_class e' = AttributeError)
          ∧ w1 = ticked (ticked w')
      | (Raise e, w') =>
          if isinstance_exc e Exception then
            (∃ e', out = Raise e' ∧ exc_class e' = AttributeError)
            ∧ w1 = ticked w'
          else out = Raise e ∧ w1 = w'
      end.
Proof.
  intros Hname Hmodule Hinit.
  cbn [log_performance func_call]. rewrite Hname, Hmodule.
  unfold getattr_or_raise. unfold bind at 1, ret at 1. cbv beta iota.
  unfold bind at 1. rewrite get_logger_ready by done. cbv beta iota.
  unfold bind at 1, time_time at 1. cbv beta iota.
  unfold try_except, dispatch. unfold bind at 1. unfold ticked.
  match goal with
  | |- context [func_call func args ?st] =>
      destruct (func_call func args st) as [[v|e] w']
  end.
  - eexists _, _. split; [reflexivity|]. split; [|reflexivity].
    eexists. by split.
  - destruct (isinstance_exc e Exception);
      eexists _, _; (split; [reflexivity|]); [|by split].
    split; [|reflexivity]. eexists. by split.
Qed.

Lemma log_performance_nameless_witness :
  ∃ out w1,
    func_call (log_performance callable_object) [] running = (out, w1)
    ∧ match func_call callable_object []
              (ticked (registered "game" running)) with
      | (Return v, w') =>
          (∃ e', out = Raise e' ∧ exc_class e' = AttributeError)
          ∧ w1 = ticked (ticked w')
      | (Raise e, w') =>
          if isinstance_exc e Exception then
            (∃ e', out = Raise e' ∧ exc_class e' = AttributeError)
            ∧ w1 = ticked w'
          else out = Raise e ∧ w1 = w'
      end.
Proof.
  apply (log_performance_nameless callable_object "game" [] running);
    vm_compute; reflexivity.
Defined.

(** X15: [validate_theme] has three outcomes and no other.  It returns
    [True] exactly for the five names that are keys of [THEMES], each of
    which is also the ["name"] of its entry, and it logs nothing then.
    It raises [TypeError] exactly on a list or a dictionary, the value
    being unhashable, and logs nothing then either.  On every other
    value (any other string, a number, a [bool], [None]) it returns
    [False], after logging one WARNING that lists the themes. *)
Theorem validate_theme_spec (logger : PyLogger) (theme : PyVal) (w : Logging) :
  ∃ out w',
    validate_theme logger theme w = (out, w')
    ∧ (out = Return true ↔
       ∃ s, theme = PStr s
            ∧ s ∈ ["classic"; "ocean"; "sunset"; "midnight"; "forest"]
            ∧ ∃ t, (s, t) ∈ THEMES ∧ theme_name t = s)
    ∧ (out = Return true → w' = w)
    ∧ ((∃ e, out = Raise e ∧ exc_class e = TypeError ∧ w' = w) ↔
       (∃ l, theme = PList l) ∨ (∃ d, theme = PDict d))
    ∧ (out = Return false →
       w' = logged w (mkLine (logger_name logger) WARNING
                        (TxtUnknownTheme theme
                           ["classic"; "ocean"; "sunset"; "midnight";
                            "forest"]) false))
    ∧ (out = Return false ↔
       (∀ s, theme = PStr s →
             s ∉ ["classic"; "ocean"; "sunset"; "midnight"; "forest"])
       ∧ (∀ l, theme ≠ PList l) ∧ (∀ d, theme ≠ PDict d))
    ∧ (out = Return true ∨ out = Return false
       ∨ ∃ e, out = Raise e ∧ exc_class e = TypeError).
Proof.
  destruct theme as [|b|n|f|s|l|d];
    try (eexists _, _; split; [reflexivity|];
         split; [split; [done | by intros (? & ? & _)]|];
         split; [done|];
         split; [split; [by intros (? & ? & _) | by intros [[? ?]|[? ?]]]|];
         split; [done|];
         split; [by split|by right; left]).
  - (* a string *)
    destruct (decide (s ∈ THEMES.*1)) as [Hin|Hout].
    + exists (Return true), w. split.
      { unfold validate_theme, bind, ret; simpl.
        by rewrite bool_decide_true. }
      split; [|split; [done|split; [|split; [done|split; [|by left]]]]].
      * split; [|done]. intros _. exists s. split; [done|].
        split; [exact Hin|].
        cbn in Hin. rewrite !elem_of_cons in Hin.
        destruct Hin as [->|[->|[->|[->|[->|Hin]]]]];
          [..|by apply elem_of_nil in Hin];
          (eexists; split;
           [repeat first [apply list_elem_of_here | apply list_elem_of_further]
           |reflexivity]).
      * split; [by intros (? & ? & _) | by intros [[? ?]|[? ?]]].
      * split; [done|]. intros (Hno & _). by destruct (Hno s eq_refl).
    + eexists _, _. split.
      { unfold validate_theme, bind, ret; simpl.
        rewrite bool_decide_false by done. reflexivity. }
      split; [split; [done|]|split; [done|split; [|split; [done|split]]]].
      * by intros (s' & [= <-] & Hin & _).
      * split; [by intros (? & ? & _) | by intros [[? ?]|[? ?]]].
      * split; [|done]. intros _. split; [|done]. by intros s' [= <-].
      * by right; left.
  - (* a list *)
    eexists _, w. split; [reflexivity|].
    split; [split; [done | by intros (? & ? & _)]|]. split; [done|].
    split; [split; [by left; eexists|]; intros _; by eexists|].
    split; [done|].
    split; [|right; right; by eexists].
    split; [done|]. intros (_ & Hno & _). by destruct (Hno l).
  - (* a dictionary *)
    eexists _, w. split; [reflexivity|].
    split; [split; [done | by intros (? & ? & _)]|]. split; [done|].
    split; [split; [by right; eexists|]; intros _; by eexists|].
    split; [done|].
    split; [|right; right; by eexists].
    split; [done|]. intros (_ & _ & Hno). by destruct (Hno d).
Qed.

End ContextFacts.

(** * Properties of [main.py] *)

Section MainFacts.
Import Main.

(** X16: The dependency check of the script.  With [pygame] importable it
    returns at once, prints nothing and runs nothing, and the game
    starts.  With [pygame] missing it never returns: pip is run exactly
    once, as [<python> -m pip install --user pygame>=2.0.0], and the
    script leaves with status 0 after a successful install and with
    status 1 after a failed one; the game is not started in either
    case. *)
Theorem check_and_install_outcome (env : Env) (game : StErr Console ())
    (c : Console) :
  match find_spec env "pygame" with
  | Return (Some _) =>
      check_and_install_dependencies env c = (Return (), c)
      ∧ script env game c = game c
  | Return None =>
      let command :=
        [executable env; "-m"; "pip"; "install"; "--user"; "pygame>=2.0.0"] in
      ∃ e c',
        check_and_install_dependencies env c = (Raise e, c')
        ∧ script env game c = (Raise e, c')
        ∧ commands c' = commands c ++ [command]
        ∧ match check_call env command with
          | PipOk => e = mkExc SystemExit "0"
          | CalledProcessError => e = mkExc SystemExit "1"
          | PipRaises e' => e = e'
          end
  | Raise e =>
      check_and_install_dependencies env c = (Raise e, c)
      ∧ script env game c = (Raise e, c)
  end.
Proof.
  unfold script, check_and_install_dependencies, required_packages.
  unfold bind, ret, raise, print, sys_exit; simpl.
  destruct (find_spec env "pygame") as [[spec|]|e]; simpl; [done| |done].
  unfold bind, ret, raise; simpl.
  destruct (check_call env _); simpl; eexists _, _; by repeat split.
Qed.

End MainFacts.
